(** * profs: a shallow embedding of [profs.py]

    The development follows the source top-down: the Python string
    primitives and the [os.path] functions the script calls, the three
    classes [Paths], [StatObject] and [FileSystem] with the class-level
    objects they share, and then the properties of the walker, the path
    canonicalizer and the snapshot codec.

    Python [str] values are modelled as strings of 8-bit characters,
    [bytes] as lists of [Byte.byte], Python integers as [Z]. *)

From Stdlib Require Import ZArith List String Ascii Bool Lia DecimalString.
From Stdlib Require DecimalPos.
Import ListNotations.

Open Scope string_scope.
Open Scope Z_scope.

(** ** Python string primitives *)

Module Py.

Definition NUL : ascii := "000"%char.

(** [s[n:]] *)
Fixpoint slice_from (n : nat) (s : string) : string :=
  match n, s with
  | O, _ => s
  | S _, EmptyString => EmptyString
  | S n', String _ s' => slice_from n' s'
  end.

(** [s[:n]] *)
Fixpoint slice_to (n : nat) (s : string) : string :=
  match n, s with
  | O, _ => EmptyString
  | S _, EmptyString => EmptyString
  | S n', String c s' => String c (slice_to n' s')
  end.

(** [s.startswith(p)] *)
Definition startswith (s p : string) : bool := String.prefix p s.

(** [s.endswith(c)] for a one-character [c] *)
Fixpoint endswith_char (s : string) (c : ascii) : bool :=
  match s with
  | EmptyString => false
  | String a EmptyString => Ascii.eqb a c
  | String _ s' => endswith_char s' c
  end.

(** [c in s] *)
Fixpoint contains (c : ascii) (s : string) : bool :=
  match s with
  | EmptyString => false
  | String a s' => Ascii.eqb a c || contains c s'
  end.

(** [s.index(c)]: [None] stands for the [ValueError] Python raises
    when the character is absent. *)
Fixpoint index (c : ascii) (s : string) : option nat :=
  match s with
  | EmptyString => None
  | String a s' =>
      if Ascii.eqb a c then Some O
      else match index c s' with
           | Some k => Some (S k)
           | None => None
           end
  end.

(** [str.isspace] on the 8-bit range: TAB..CR, FS..US, space, NEL, NBSP. *)
Definition isspace (c : ascii) : bool :=
  let n := nat_of_ascii c in
  ((9 <=? n) && (n <=? 13))%nat || ((28 <=? n) && (n <=? 32))%nat
  || (n =? 133)%nat || (n =? 160)%nat.

Fixpoint lstrip (s : string) : string :=
  match s with
  | EmptyString => EmptyString
  | String c s' => if isspace c then lstrip s' else s
  end.

Fixpoint rstrip (s : string) : string :=
  match s with
  | EmptyString => EmptyString
  | String c s' =>
      match rstrip s' with
      | EmptyString => if isspace c then EmptyString else String c EmptyString
      | r => String c r
      end
  end.

(** [s.strip()] *)
Definition strip (s : string) : string := rstrip (lstrip s).

(** [s.split(c)] *)
Fixpoint split (c : ascii) (s : string) : list string :=
  match s with
  | EmptyString => [EmptyString]
  | String a s' =>
      if Ascii.eqb a c then EmptyString :: split c s'
      else match split c s' with
           | h :: t => String a h :: t
           | [] => [String a EmptyString]
           end
  end.

Definition NL : string := String "010"%char EmptyString.

(** [f.readline()] on the text still unread: the line with its
    newline, and what follows. *)
Fixpoint readline (s : string) : string * string :=
  match s with
  | EmptyString => (EmptyString, EmptyString)
  | String c s' =>
      if Ascii.eqb c "010"%char then (String c EmptyString, s')
      else let (l, r) := readline s' in (String c l, r)
  end.

(** [bytes(s, encoding='utf-8')] on 8-bit code points.  These always
    encode; text with a lone surrogate, which [os.listdir] gives for a
    file name that is not UTF-8 and for which the encoding raises
    [UnicodeEncodeError], is outside the 8-bit strings of this
    development. *)
Definition encode_utf8 (s : string) : list Byte.byte :=
  flat_map
    (fun c =>
       let n := nat_of_ascii c in
       if (n <? 128)%nat then [byte_of_ascii c]
       else [byte_of_ascii (ascii_of_nat (192 + n / 64));
             byte_of_ascii (ascii_of_nat (128 + n mod 64))])
    (list_ascii_of_string s).

(** A character that text-mode reading gives back as it was written:
    ASCII, and not a carriage return. *)
Definition kept (c : ascii) : bool :=
  let n := nat_of_ascii c in ((n <? 128) && negb (n =? 13))%nat.

(** Text-mode decoding of bytes that are all ASCII and hold no
    carriage return: the same characters.  [None] outside that
    range, where decoding is not modelled. *)
Fixpoint ascii_text (bs : list Byte.byte) : option string :=
  match bs with
  | [] => Some EmptyString
  | b :: bs' =>
      let c := ascii_of_byte b in
      let n := nat_of_ascii c in
      if ((n <? 128) && negb (n =? 13))%nat then
        match ascii_text bs' with
        | Some t => Some (String c t)
        | None => None
        end
      else None
  end.

(** The decimal text of an integer: a minus sign for a negative one,
    and the digits without leading zeros. *)
Definition str_of_int (z : Z) : string := NilZero.string_of_int (Z.to_int z).

End Py.

(** ** [os.path] on POSIX

    [join], [normpath] and [abspath] are pure string functions of the
    Python standard library ([posixpath.py]); they are written out here
    because the walker's names are computed with them. *)

Module PosixPath.

Definition sep : string := "/".
Definition sep_char : ascii := "/"%char.

Definition isabs (p : string) : bool := Py.startswith p sep.

(** [os.path.join(a, b)] *)
Definition join (a b : string) : string :=
  if Py.startswith b sep then b
  else if (String.eqb a "" || Py.endswith_char a sep_char)%bool then a ++ b
  else a ++ sep ++ b.

(** The component loop of [normpath]; [acc] is [new_comps] reversed. *)
Fixpoint norm_comps (initial_slashes : bool) (comps acc : list string)
  : list string :=
  match comps with
  | [] => rev acc
  | comp :: rest =>
      if (String.eqb comp "" || String.eqb comp ".")%bool then
        norm_comps initial_slashes rest acc
      else if (negb (String.eqb comp "..")
               || (negb initial_slashes && match acc with [] => true | _ => false end)
               || match acc with last :: _ => String.eqb last ".." | [] => false end)%bool
      then norm_comps initial_slashes rest (comp :: acc)
      else match acc with
           | _ :: acc' => norm_comps initial_slashes rest acc'
           | [] => norm_comps initial_slashes rest acc
           end
  end.

(** [os.path.normpath(path)] *)
Definition normpath (path : string) : string :=
  if String.eqb path "" then "."
  else
    let initial_slashes : nat :=
      if Py.startswith path sep then
        if (Py.startswith path "//" && negb (Py.startswith path "///"))%bool
        then 2%nat else 1%nat
      else 0%nat in
    let comps := norm_comps (negb (Nat.eqb initial_slashes 0))
                            (Py.split sep_char path) [] in
    let body := String.concat sep comps in
    let path' :=
      match initial_slashes with
      | O => body
      | 1%nat => sep ++ body
      | _ => "//" ++ body
      end in
    if String.eqb path' "" then "." else path'.

(** [os.path.abspath(path)] in a process whose working directory is [cwd] *)
Definition abspath (cwd path : string) : string :=
  normpath (if isabs path then path else join cwd path).

End PosixPath.

(** A path lies under a directory when it is the directory itself or
    continues it after a separator. *)
Definition lies_under (base path : string) : bool :=
  String.eqb path base
  || Py.startswith path (if String.eqb base "/" then "/" else base ++ "/").

(** ** Exceptions and results *)

Inductive value_error : Type :=
| EmbeddedNul                              (* 'embedded null byte' *)
| NotUnder (canonical base : string)       (* '{} is not under {}' *)
| Duplicate (name : string)                (* 'duplicate: {}' *)
| SubstringNotFound                        (* str.index *)
| InvalidLiteral (text : string)           (* int() *)
| DigitLimit.                              (* int(), format: over 4300 digits *)

Inductive exn : Type :=
| ValueError (why : value_error)
| TypeError
| AttributeError
| AssertionError
| IndexError
| StructError
| FileNotFoundError
| PermissionError
| FileExistsError
| UnicodeDecodeError
| KeyError
| OtherOSError (errno : Z).

Inductive result (A : Type) : Type :=
| Ok (a : A)
| Err (e : exn).
Arguments Ok {A} a.
Arguments Err {A} e.

Definition is_FileNotFoundError (e : exn) : bool :=
  match e with FileNotFoundError => true | _ => false end.

Definition is_PermissionError (e : exn) : bool :=
  match e with PermissionError => true | _ => false end.

(** [int(x)] for the argument kinds the script passes: [None]
    ([TypeError]), an integer, or text.  Text is read as CPython's
    [PyLong_FromString] reads it in base 10: white space, an optional
    sign, a run of decimal digits with single underscores between
    digits, white space.  A run of more than [max_str_digits] digits is
    refused, and so is the decimal text of an integer of that many
    digits ([sys.int_max_str_digits], 4300 unless the interpreter is
    told otherwise). *)

Module PyInt.

Definition max_str_digits : Z := 4300.

Definition digit (c : ascii) : option Z :=
  let n := nat_of_ascii c in
  if ((48 <=? n) && (n <=? 57))%nat then Some (Z.of_nat n - 48) else None.

(** White space for [int()]: C's [isspace] (TAB..CR and the space),
    and NEL and NBSP, which are turned into spaces before the text is
    read.  U+001C..U+001F, white space for [str.strip], are not. *)
Definition space (c : ascii) : bool :=
  let n := nat_of_ascii c in
  ((9 <=? n) && (n <=? 13))%nat || (n =? 32)%nat
  || (n =? 133)%nat || (n =? 160)%nat.

Fixpoint skip (s : string) : string :=
  match s with
  | EmptyString => EmptyString
  | String c s' => if space c then skip s' else s
  end.

Definition sign (t : string) : bool * string :=
  match t with
  | String "+"%char r => (false, r)
  | String "-"%char r => (true, r)
  | _ => (false, t)
  end.

(** The run of digits and underscores [s] begins with: its value, the
    number of its digits and the text after it.  [None] for two
    underscores in a row and for an underscore that ends the run. *)
Fixpoint scan (s : string) (acc count : Z) (after_underscore : bool)
  : option (Z * Z * string) :=
  match s with
  | EmptyString => if after_underscore then None else Some (acc, count, EmptyString)
  | String c s' =>
      match digit c with
      | Some d => scan s' (acc * 10 + d) (count + 1) false
      | None =>
          if Ascii.eqb c "_"%char then
            if after_underscore then None else scan s' acc count true
          else if after_underscore then None else Some (acc, count, s)
      end
  end.

(** The text after the sign; [s] is the whole argument, for the
    message.  The digit limit is checked when the run has been
    scanned, before what follows the run is looked at. *)
Definition magnitude (s u : string) : result Z :=
  let invalid := Err (ValueError (InvalidLiteral s)) in
  if Py.startswith u "_" then invalid
  else
    match scan u 0 0 false with
    | None => invalid
    | Some (v, count, rest) =>
        if max_str_digits <? count then Err (ValueError DigitLimit)
        else if count =? 0 then invalid
        else match skip rest with
             | EmptyString => Ok v
             | String _ _ => invalid
             end
    end.

Definition of_str (s : string) : result Z :=
  let (negative, u) := sign (skip s) in
  match magnitude s u with
  | Ok v => Ok (if negative : bool then - v else v)
  | Err e => Err e
  end.

(** The value [scan] computes on the decimal digits [d], most
    significant first, starting from [acc]. *)
Fixpoint uacc (d : Decimal.uint) (acc : Z) : Z :=
  match d with
  | Decimal.Nil => acc
  | Decimal.D0 l => uacc l (acc * 10 + 0)
  | Decimal.D1 l => uacc l (acc * 10 + 1)
  | Decimal.D2 l => uacc l (acc * 10 + 2)
  | Decimal.D3 l => uacc l (acc * 10 + 3)
  | Decimal.D4 l => uacc l (acc * 10 + 4)
  | Decimal.D5 l => uacc l (acc * 10 + 5)
  | Decimal.D6 l => uacc l (acc * 10 + 6)
  | Decimal.D7 l => uacc l (acc * 10 + 7)
  | Decimal.D8 l => uacc l (acc * 10 + 8)
  | Decimal.D9 l => uacc l (acc * 10 + 9)
  end.

(** The decimal text of [z] has at most [max_str_digits] digits. *)
Definition fits (z : Z) : bool :=
  Z.of_nat (String.length (Py.str_of_int (Z.abs z))) <=? max_str_digits.

(** ['{}'.format(z)] for an integer *)
Definition format (z : Z) : result string :=
  if fits z then Ok (Py.str_of_int z) else Err (ValueError DigitLimit).

Inductive arg : Type :=
| ArgNone
| ArgInt (z : Z)
| ArgStr (s : string).

Definition int (a : arg) : result Z :=
  match a with
  | ArgNone => Err TypeError
  | ArgInt z => Ok z
  | ArgStr s => of_str s
  end.

End PyInt.

Arguments PyInt.fits : simpl never.
Arguments PyInt.format : simpl never.

(** ** The operating system

    The file tree is an oracle: what [os.getcwd], [os.path.realpath],
    [os.stat(..., follow_symlinks=False)] and [os.listdir] answer, which
    paths exist, and what a file read in text mode yields.  An entry
    that a listing names and [lstat] no longer finds is a race. *)

Record stat_result : Type := {
  st_mode : Z;
  st_dev : Z;
  st_gid : Z;
  st_uid : Z;
  st_ctime : Z;   (* [int(stat_result.st_ctime)] *)
  st_mtime : Z;   (* [int(stat_result.st_mtime)] *)
  st_size : Z
}.

Record OS : Type := {
  getcwd : string;
  resolve : string -> string;               (* symlink-resolved absolute path *)
  lstat : string -> result stat_result;
  listdir : string -> result (list string);
  path_exists : string -> bool;
  read_text : string -> result string       (* [open(p, 'r')] and decoding *)
}.

(** [os.path.realpath(path)]: an embedded NUL is a [ValueError]. *)
Definition os_realpath (os : OS) (path : string) : result string :=
  if Py.contains Py.NUL path then Err (ValueError EmbeddedNul)
  else Ok (resolve os path).

Definition os_abspath (os : OS) (path : string) : string :=
  PosixPath.abspath (getcwd os) path.

(** [stat.S_ISDIR], [stat.S_ISREG] *)
Definition S_IFMT (mode : Z) : Z := Z.land mode 61440.     (* 0o170000 *)
Definition S_ISDIR (mode : Z) : bool := S_IFMT mode =? 16384.  (* 0o040000 *)
Definition S_ISREG (mode : Z) : bool := S_IFMT mode =? 32768.  (* 0o100000 *)

(** ** [struct] with format ['IIIIlll'] (native, LP64, little endian)

    Four unsigned 32-bit fields and three signed 64-bit fields: 40
    bytes, the record width [import_fs] slices by. *)

Module Struct.

Definition byte_of_Z (z : Z) : Byte.byte :=
  byte_of_ascii (ascii_of_N (Z.to_N (z mod 256))).

Definition Z_of_byte (b : Byte.byte) : Z :=
  Z.of_N (N_of_ascii (ascii_of_byte b)).

Fixpoint le_bytes (n : nat) (z : Z) : list Byte.byte :=
  match n with
  | O => []
  | S n' => byte_of_Z z :: le_bytes n' (z / 256)
  end.

Fixpoint le_value (bs : list Byte.byte) : Z :=
  match bs with
  | [] => 0
  | b :: bs' => Z_of_byte b + 256 * le_value bs'
  end.

(** ['I'] *)
Definition pack_I (z : Z) : result (list Byte.byte) :=
  if ((0 <=? z) && (z <? 2 ^ 32))%bool then Ok (le_bytes 4 z) else Err StructError.

(** ['l'] *)
Definition pack_l (z : Z) : result (list Byte.byte) :=
  if ((- 2 ^ 63 <=? z) && (z <? 2 ^ 63))%bool
  then Ok (le_bytes 8 (z mod 2 ^ 64)) else Err StructError.

Definition unpack_I (bs : list Byte.byte) : Z := le_value bs.

Definition unpack_l (bs : list Byte.byte) : Z :=
  let u := le_value bs in if u <? 2 ^ 63 then u else u - 2 ^ 64.

Definition calcsize : nat := 40.

Definition cat (a b : result (list Byte.byte)) : result (list Byte.byte) :=
  match a, b with
  | Ok x, Ok y => Ok (x ++ y)%list
  | Err e, _ => Err e
  | _, Err e => Err e
  end.

Definition pack (mode inode gid uid mtime ctime size : Z) : result (list Byte.byte) :=
  cat (pack_I mode) (cat (pack_I inode) (cat (pack_I gid) (cat (pack_I uid)
    (cat (pack_l mtime) (cat (pack_l ctime) (pack_l size)))))).

Definition field (off len : nat) (bs : list Byte.byte) : list Byte.byte :=
  firstn len (skipn off bs).

Definition unpack (bs : list Byte.byte) : result (Z * Z * Z * Z * Z * Z * Z) :=
  if Nat.eqb (List.length bs) calcsize then
    Ok (unpack_I (field 0 4 bs), unpack_I (field 4 4 bs),
        unpack_I (field 8 4 bs), unpack_I (field 12 4 bs),
        unpack_l (field 16 8 bs), unpack_l (field 24 8 bs),
        unpack_l (field 32 8 bs))
  else Err StructError.

(** The values ['I'] and ['l'] accept. *)
Definition in_I (z : Z) : Prop := 0 <= z < 2 ^ 32.
Definition in_l (z : Z) : Prop := - 2 ^ 63 <= z < 2 ^ 63.

(** [b1 ^ b2] on two byte values *)
Definition xor_byte (a b : Byte.byte) : Byte.byte :=
  byte_of_Z (Z.lxor (Z_of_byte a) (Z_of_byte b)).

(** [bytes([b1 ^ b2 for b1, b2 in zip(x, y)])] *)
Definition xor_bytes (x y : list Byte.byte) : list Byte.byte :=
  map (fun p => xor_byte (fst p) (snd p)) (combine x y).

End Struct.

(** ** Effects: a state-and-exception monad

    A Python exception leaves every mutation made before it in place,
    so [Raised] carries the state too.  [OutOfFuel] is the walker
    exceeding the recursion depth it was given. *)

Inductive outcome (S A : Type) : Type :=
| Done (a : A) (s : S)
| Raised (e : exn) (s : S)
| OutOfFuel.
Arguments Done {S A} a s.
Arguments Raised {S A} e s.
Arguments OutOfFuel {S A}.

Definition M (S A : Type) : Type := S -> outcome S A.

Definition ret {S A} (a : A) : M S A := fun s => Done a s.

Definition raise {S A} (e : exn) : M S A := fun s => Raised e s.

Definition bind {S A B} (c : M S A) (k : A -> M S B) : M S B :=
  fun s =>
    match c s with
    | Done a s' => k a s'
    | Raised e s' => Raised e s'
    | OutOfFuel => OutOfFuel
    end.

Definition lift {S A} (r : result A) : M S A :=
  match r with
  | Ok a => ret a
  | Err e => raise e
  end.

Definition gets {S A} (f : S -> A) : M S A := fun s => Done (f s) s.

Definition modify {S} (f : S -> S) : M S unit := fun s => Done tt (f s).

(** [try: c  except <handled>: h] *)
Definition try_except {S A} (c : M S A) (handled : exn -> bool) (h : M S A) : M S A :=
  fun s =>
    match c s with
    | Raised e s' => if handled e then h s' else Raised e s'
    | o => o
    end.

Declare Scope py_scope.
Delimit Scope py_scope with py.
Notation "x <- c ;; k" := (bind c (fun x => k))
  (at level 100, c at next level, right associativity) : py_scope.
Notation "c ;; k" := (bind c (fun _ => k))
  (at level 100, right associativity) : py_scope.
Open Scope py_scope.

(** [for x in xs: body(x)] *)
Fixpoint for_each {S A} (xs : list A) (body : A -> M S unit) : M S unit :=
  match xs with
  | [] => ret tt
  | x :: rest => body x ;; for_each rest body
  end.

(** The state an outcome ends in, when it has one. *)
Definition final_state {S A} (o : outcome S A) : option S :=
  match o with
  | Done _ s => Some s
  | Raised _ s => Some s
  | OutOfFuel => None
  end.

(** ** [class Paths] *)

Module Paths.

(** Instance attributes. *)
Record t : Type := { base : string; relative_only : bool }.

(** The class attribute [paths = set()]: one set object, reached
    through every instance as [self.paths].  The elements are kept in
    the order they were added; only membership is meant. *)
Definition pyset : Type := list string.

Definition set_add (x : string) (xs : pyset) : pyset :=
  if existsb (String.eqb x) xs then xs else (xs ++ [x])%list.

Definition add (os : OS) (self : t) (path : string) : M pyset unit :=
  let path := Py.strip path in
  canonical_path <-
    try_except (lift (os_realpath os path))
      (fun e => match e with ValueError _ => true | _ => false end)
      (match Py.index Py.NUL path with
       | None => raise (ValueError SubstringNotFound)
       | Some k =>
           let non_zt_path := Py.slice_to k path in
           lift (os_realpath os path)
       end) ;;
  canonical_path <-
    (if relative_only self then
       if Py.startswith canonical_path (base self) then
         ret (Py.slice_from (String.length (base self) + 1) canonical_path)
       else raise (ValueError (NotUnder canonical_path (base self)))
     else ret canonical_path) ;;
  let canonical_path :=
    if String.eqb canonical_path "" then "." else canonical_path in
  modify (set_add canonical_path).

Definition __init__ (os : OS) (base : option string) (relative_only : bool)
    (paths_list : option (list string)) : M pyset t :=
  let base0 := match base with None => "." | Some b => b end in
  base1 <- lift (os_realpath os base0) ;;
  let self := {| base := base1; relative_only := relative_only |} in
  let paths_list := match paths_list with None => [] | Some l => l end in
  for_each paths_list (add os self) ;;
  ret self.

End Paths.

(** ** [class StatObject] *)

Module StatObject.

(** The slots; [None] is a slot not yet assigned. *)
Record t : Type := {
  mode : option Z;
  inode : option Z;
  gid : option Z;
  uid : option Z;
  mtime : option Z;
  ctime : option Z;
  size : option Z;
  _serialized : option (list Byte.byte)
}.

Inductive pydata : Type :=
| PyStr (s : string)
| PyBytes (b : list Byte.byte).

Definition blank : t :=
  {| mode := None; inode := None; gid := None; uid := None;
     mtime := None; ctime := None; size := None; _serialized := None |}.

Definition unserialize (self : t) (data : pydata) : result t :=
  match data with
  | PyStr _ => Err TypeError
  | PyBytes b =>
      match Struct.unpack b with
      | Err e => Err e
      | Ok (mode, inode, gid, uid, mtime, ctime, size) =>
          Ok {| mode := Some mode; inode := Some inode; gid := Some gid;
                uid := Some uid; mtime := Some mtime; ctime := Some ctime;
                size := Some size; _serialized := _serialized self |}
      end
  end.

(** [StatObject(data=..., stat_result=..., inode=...)]; [inode] is the
    one keyword argument the script passes.  With [data]
    the constructor calls [self.unserialize(self, data)]: a bound
    method of two parameters applied to three arguments, which is a
    [TypeError] before [unserialize] runs. *)
Definition __init__ (data : option pydata) (stat_result : option stat_result)
    (kw_inode : option Z) : result t :=
  let self := blank in
  match data with
  | Some _ => Err TypeError
  | None =>
      let self :=
        match stat_result with
        | Some sr =>
            {| mode := Some (st_mode sr); inode := inode self;
               gid := Some (st_gid sr); uid := Some (st_uid sr);
               mtime := Some (st_mtime sr); ctime := Some (st_ctime sr);
               size := Some (st_size sr); _serialized := _serialized self |}
        | None => self
        end in
      let self :=
        match kw_inode with
        | Some i =>
            {| mode := mode self; inode := Some i; gid := gid self;
               uid := uid self; mtime := mtime self; ctime := ctime self;
               size := size self; _serialized := _serialized self |}
        | None => self
        end in
      Ok self
  end.

Definition isdir (self : t) : result bool :=
  match mode self with Some m => Ok (S_ISDIR m) | None => Err AttributeError end.

Definition isreg (self : t) : result bool :=
  match mode self with Some m => Ok (S_ISREG m) | None => Err AttributeError end.

(** [serialize] caches its result in the object. *)
Definition serialize (self : t) : result (list Byte.byte * t) :=
  match _serialized self with
  | Some b => Ok (b, self)
  | None =>
      match mode self, inode self, gid self, uid self,
            mtime self, ctime self, size self with
      | Some m, Some i, Some g, Some u, Some mt, Some ct, Some sz =>
          match Struct.pack m i g u mt ct sz with
          | Err e => Err e
          | Ok b =>
              Ok (b, {| mode := mode self; inode := inode self; gid := gid self;
                        uid := uid self; mtime := mtime self; ctime := ctime self;
                        size := size self; _serialized := Some b |})
          end
      | _, _, _, _, _, _, _ => Err AttributeError
      end
  end.

(** [self.delta(other)]: the state is the pair of objects, whose
    caches [serialize] fills.  An instance is always true, so
    [not other] holds for [None] only; [zip] stops at the shorter
    operand. *)
Definition delta : M (t * option t) (list Byte.byte) :=
  fun st =>
    let (self, other) := st in
    match serialize self with
    | Err e => Raised e st
    | Ok (serialized, self') =>
        match other with
        | None => Done serialized (self', None)
        | Some o =>
            match serialize o with
            | Err e => Raised e (self', Some o)
            | Ok (ob, o') =>
                Done (Struct.xor_bytes serialized ob) (self', Some o')
            end
        end
    end.

End StatObject.

(** ** Python [dict] from [str] to [int], in insertion order *)

Module Dict.

Definition t : Type := list (string * Z).

Fixpoint get (k : string) (d : t) : option Z :=
  match d with
  | [] => None
  | (k', v) :: d' => if String.eqb k k' then Some v else get k d'
  end.

Definition mem (k : string) (d : t) : bool :=
  match get k d with Some _ => true | None => false end.

(** [d[k] = v]: an existing key keeps its place, a new one goes last. *)
Fixpoint set (k : string) (v : Z) (d : t) : t :=
  match d with
  | [] => [(k, v)]
  | (k', v') :: d' =>
      if String.eqb k k' then (k', v) :: d' else (k', v') :: set k v d'
  end.

Definition keys (d : t) : list string := map fst d.

End Dict.

(** ** What the script prints *)

Inductive event : Type :=
| NotUnderBase (canonical_path base : string)
| SkipOtherFS (canonical_path : string)
| SkipTooLarge (canonical_path : string) (size : Z)
| SkipDuplicate (name canonical_path base relative_path : string)
| SkipPermission (canonical_path : string)
| ProgressTick (inode : Z)
| ProgressFinal (inode : Z)
| PrintedBytes (b : list Byte.byte).

(** ** [class FileSystem] *)

Module FileSystem.

(** Instance attributes.  [inode] is read through the class default
    [inode = 0] until the first [self.inode += 1] binds it on the
    instance; [dev] is unset until [init_from_paths]. *)
Record t : Type := {
  base : string;
  base_len : nat;
  follow : bool;
  bailout : bool;
  maxsize : PyInt.arg;
  progress : bool;
  name : string;
  dev : option Z;
  inode : Z
}.

(** The running instance together with the objects every instance
    reaches: the class attributes [names = { }] and
    [stat_objects = [ ]], which are never rebound on an instance and
    so are mutated in place, and standard output. *)
Record state : Type := {
  self : t;
  names : Dict.t;
  stat_objects : list StatObject.t;
  stdout : list event
}.

Definition set_inode (i : Z) (s : state) : state :=
  {| self := {| base := base (self s); base_len := base_len (self s);
                follow := follow (self s); bailout := bailout (self s);
                maxsize := maxsize (self s); progress := progress (self s);
                name := name (self s); dev := dev (self s); inode := i |};
     names := names s; stat_objects := stat_objects s; stdout := stdout s |}.

Definition set_dev (d : Z) (s : state) : state :=
  {| self := {| base := base (self s); base_len := base_len (self s);
                follow := follow (self s); bailout := bailout (self s);
                maxsize := maxsize (self s); progress := progress (self s);
                name := name (self s); dev := Some d; inode := inode (self s) |};
     names := names s; stat_objects := stat_objects s; stdout := stdout s |}.

Definition set_names (d : Dict.t) (s : state) : state :=
  {| self := self s; names := d; stat_objects := stat_objects s;
     stdout := stdout s |}.

Definition set_stat_objects (l : list StatObject.t) (s : state) : state :=
  {| self := self s; names := names s; stat_objects := l; stdout := stdout s |}.

Definition emit (e : event) (s : state) : state :=
  {| self := self s; names := names s; stat_objects := stat_objects s;
     stdout := (stdout s ++ [e])%list |}.

Definition print (e : event) : M state unit := modify (emit e).

(** Lines 111-120 of [__init__]. *)
Definition make (base : string) (follow bailout progress : bool)
    (maxsize : PyInt.arg) (name : string) : t :=
  {| base := base;
     base_len := if String.eqb base "/" then 1%nat else (String.length base + 1)%nat;
     follow := follow; bailout := bailout; maxsize := maxsize;
     progress := progress; name := name; dev := None; inode := 0 |}.

(** The first instance of a process: the class body has just bound
    [names] and [stat_objects] to empty objects. *)
Definition first_instance (fs : t) : state :=
  {| self := fs; names := []; stat_objects := []; stdout := [] |}.

(** A later instance of the same process reaches the same
    [names] and [stat_objects]. *)
Definition next_instance (fs : t) (s : state) : state :=
  {| self := fs; names := names s; stat_objects := stat_objects s;
     stdout := stdout s |}.

Definition new_node (name : string) : M state (option Z) :=
  present <- gets (fun s => Dict.mem name (names s)) ;;
  bail <- gets (fun s => bailout (self s)) ;;
  if (present : bool) then
    if (bail : bool) then raise (ValueError (Duplicate name)) else ret None
  else
    inode <- gets (fun s => inode (self s)) ;;
    modify (set_inode (inode + 1)) ;;
    modify (fun s => set_names (Dict.set name inode (names s)) s) ;;
    prog <- gets (fun s => progress (self s)) ;;
    (if (prog && ((inode + 1) mod 1000 =? 0))%bool
     then print (ProgressTick (inode + 1)) else ret tt) ;;
    ret (Some inode).

(** [l[i]] on a Python list: a negative index counts from the end. *)
Definition py_index {A} (l : list A) (i : Z) : result A :=
  let n := Z.of_nat (List.length l) in
  let j := if i <? 0 then n + i else i in
  if ((0 <=? j) && (j <? n))%bool then
    match nth_error l (Z.to_nat j) with
    | Some x => Ok x
    | None => Err IndexError
    end
  else Err IndexError.

(** [name_2_inode(name, accept_absolute)] *)
Definition name_2_inode (name : string) (accept_absolute : bool) (s : state)
  : result (option Z) :=
  match Dict.get name (names s) with
  | Some i => Ok (Some i)
  | None =>
      if accept_absolute then
        if Py.startswith name (base (self s)) then
          let relative_name := Py.slice_from (base_len (self s)) name in
          match Dict.get relative_name (names s) with
          | Some i => Ok (Some i)
          | None => Ok None
          end
        else Err (ValueError (NotUnder name (base (self s))))
      else Ok None
  end.

(** [inode_2_stat_object(inode)]; the default of the parameter is the
    class attribute [inode] as it is when the class body runs, 0. *)
Definition inode_2_stat_object (inode : option Z) (s : state) : result StatObject.t :=
  let inode := match inode with Some i => i | None => 0 end in
  py_index (stat_objects s) inode.

Section Walk.

Variable os : OS.

(** The module-level name [base] that line 194 reads; the script
    binds it to the absolute base directory, the value it also
    passes to the constructor. *)
Variable module_base : string.

(** Lines 184-187. *)
Definition int_maxsize : M state (option Z) :=
  a <- gets (fun s => maxsize (self s)) ;;
  match PyInt.int a with
  | Ok z => ret (Some z)
  | Err TypeError => ret None
  | Err e => raise e
  end.

(** The test of line 207. *)
Definition too_large (maxsize : option Z) (sr : stat_result) : bool :=
  match maxsize with
  | Some m => S_ISREG (st_mode sr) && (m <? st_size sr)
  | None => false
  end.

(** Lines 207-215. *)
Definition record_entry (maxsize : option Z)
    (name canonical_path relative_path : string) (sr : stat_result)
  : M state unit :=
  if too_large maxsize sr
  then print (SkipTooLarge canonical_path (st_size sr))
  else
    inode <- new_node name ;;
    match inode with
    | None =>
        b <- gets (fun s => base (self s)) ;;
        print (SkipDuplicate name canonical_path b relative_path)
    | Some i =>
        so <- lift (StatObject.__init__ None (Some sr) (Some i)) ;;
        modify (fun s => set_stat_objects (stat_objects s ++ [so])%list s)
    end.

(** Lines 217-226; [recurse] is the recursive call. *)
Definition descend (recurse : option string -> list string -> M state unit)
    (abs_path canonical_path relative_path : string) (sr : stat_result)
  : M state unit :=
  if S_ISDIR (st_mode sr) then
    fol <- gets (fun s => follow (self s)) ;;
    if (fol : bool) then
      try_except
        (try_except
           (children <- lift (listdir os abs_path) ;;
            recurse (Some relative_path) children)
           is_FileNotFoundError
           (raise AssertionError))
        is_PermissionError
        (print (SkipPermission canonical_path))
    else ret tt
  else ret tt.

(** Lines 191-195: the three paths computed for an entry. *)
Definition relative_path_of (cwd : option string) (path : string) : string :=
  match cwd with
  | Some c => PosixPath.join c path
  | None => path
  end.

Definition abs_path_of (cwd : option string) (path : string) : string :=
  PosixPath.join module_base (relative_path_of cwd path).

Definition canonical_path_of (cwd : option string) (path : string) : string :=
  os_abspath os (abs_path_of cwd path).

(** Lines 191-226: the body of the [try] for one [path]. *)
Definition visit (recurse : option string -> list string -> M state unit)
    (maxsize : option Z) (cwd : option string) (path : string)
  : M state unit :=
  let relative_path := relative_path_of cwd path in
  let abs_path := abs_path_of cwd path in
  let canonical_path := canonical_path_of cwd path in
  b <- gets (fun s => base (self s)) ;;
  blen <- gets (fun s => base_len (self s)) ;;
  name <-
    (if Py.startswith canonical_path b
     then ret (Py.slice_from blen canonical_path)
     else print (NotUnderBase canonical_path b) ;; raise AssertionError) ;;
  sr <- lift (lstat os canonical_path) ;;
  d <- gets (fun s => dev (self s)) ;;
  d <- lift (match d with Some d => Ok d | None => Err AttributeError end) ;;
  if negb (st_dev sr =? d) then
    print (SkipOtherFS canonical_path)
  else
    record_entry maxsize name canonical_path relative_path sr ;;
    descend recurse abs_path canonical_path relative_path sr.

(** Lines 227-229: the handler of the outer [try]. *)
Definition on_missing : M state unit :=
  bail <- gets (fun s => bailout (self s)) ;;
  if (bail : bool) then raise FileNotFoundError else ret tt.

(** Lines 190-229: one iteration of the loop. *)
Definition visit_guarded (recurse : option string -> list string -> M state unit)
    (maxsize : option Z) (cwd : option string) (path : string)
  : M state unit :=
  try_except (visit recurse maxsize cwd path) is_FileNotFoundError on_missing.

(** [fuel] bounds the depth of the recursion. *)
Fixpoint _init_from_paths (fuel : nat) (cwd : option string)
    (paths : list string) : M state unit :=
  match fuel with
  | O => fun _ => OutOfFuel
  | S fuel' =>
      maxsize <- int_maxsize ;;
      for_each paths (visit_guarded (_init_from_paths fuel') maxsize cwd)
  end.

Definition init_from_paths (fuel : nat) (paths : list string) : M state unit :=
  b <- gets (fun s => base (self s)) ;;
  let canonical_path := os_abspath os b in
  stat_result <- lift (lstat os canonical_path) ;;
  modify (set_dev (st_dev stat_result)) ;;
  _init_from_paths fuel None paths ;;
  prog <- gets (fun s => progress (self s)) ;;
  i <- gets (fun s => inode (self s)) ;;
  if (prog : bool) then print (ProgressFinal i) else ret tt.

(** The first loop of [export_fs]: the bytes written for the names. *)
Fixpoint export_names (ks : list string) : M state (list Byte.byte) :=
  match ks with
  | [] => ret []
  | name :: rest =>
      d <- gets names ;;
      (if Dict.mem Py.NL d then raise AssertionError else ret tt) ;;
      v <- lift (match Dict.get name d with
                 | Some v => Ok v
                 | None => Err KeyError
                 end) ;;
      text <- lift (PyInt.format v) ;;
      let line := Py.encode_utf8 (name ++ Py.NL ++ text ++ Py.NL) in
      more <- export_names rest ;;
      ret (line ++ more)%list
  end.

(** The two lines [export_fs] writes for a name, as text, and the
    text of all the names. *)
Definition name_lines (kv : string * Z) : string :=
  fst kv ++ Py.NL ++ Py.str_of_int (snd kv) ++ Py.NL.

Fixpoint names_text (d : Dict.t) : string :=
  match d with
  | [] => ""
  | kv :: d' => name_lines kv ++ names_text d'
  end.

(** A name that survives being written and read back line by line in
    text mode: ASCII, no newline and no carriage return in it (reading
    turns a carriage return into a newline), and no white space around
    it. *)
Definition plain_name (k : string) : Prop :=
  forallb Py.kept (list_ascii_of_string k) = true
  /\ Py.contains "010"%char k = false /\ Py.strip k = k.

(** The second loop of [export_fs]; [seen] are the records already
    serialized, whose cache is now filled. *)
Fixpoint export_records (todo seen : list StatObject.t)
    (l : list (list Byte.byte)) : M state (list (list Byte.byte)) :=
  match todo with
  | [] => ret l
  | so :: rest =>
      r <- lift (StatObject.serialize so) ;;
      let (b, so') := r : list Byte.byte * StatObject.t in
      modify (set_stat_objects (seen ++ so' :: rest)%list) ;;
      print (PrintedBytes b) ;;
      export_records rest (seen ++ [so'])%list (l ++ [b])%list
  end.

(** [export_fs]; the result is what the new file holds. *)
Definition export_fs : M state (list Byte.byte) :=
  nm <- gets (fun s => name (self s)) ;;
  (if path_exists os nm then raise FileExistsError else ret tt) ;;
  i <- gets (fun s => inode (self s)) ;;
  count <- lift (PyInt.format i) ;;
  let header := Py.encode_utf8 (count ++ Py.NL) in
  d <- gets names ;;
  body <- export_names (Dict.keys d) ;;
  sos <- gets stat_objects ;;
  l <- export_records sos [] [] ;;
  ret (header ++ body ++ List.concat l)%list.

(** The first loop of [import_fs]; the result is the text left. *)
Fixpoint import_names (n : nat) (text : string) : M state string :=
  match n with
  | O => ret text
  | S n' =>
      let (l1, text1) := Py.readline text in
      let name := Py.strip l1 in
      let (l2, text2) := Py.readline text1 in
      inode <- lift (PyInt.of_str l2) ;;
      modify (fun s => set_names (Dict.set name inode (names s)) s) ;;
      import_names n' text2
  end.

(** [l[i] = x] *)
Fixpoint list_assign {A} (i : nat) (x : A) (l : list A) : result (list A) :=
  match l, i with
  | [], _ => Err IndexError
  | _ :: l', O => Ok (x :: l')
  | a :: l', S i' =>
      match list_assign i' x l' with
      | Ok r => Ok (a :: r)
      | Err e => Err e
      end
  end.

Definition import_fs : M state unit :=
  nm <- gets (fun s => name (self s)) ;;
  text <- lift (read_text os nm) ;;
  let (l, text) := Py.readline text in
  n <- lift (PyInt.of_str l) ;;
  modify (set_inode n) ;;
  sos <- import_names (Z.to_nat n) text ;;
  for_each (seq 0 (Z.to_nat n))
    (fun i =>
       let data := Py.slice_to 40 (Py.slice_from (40 * i) sos) in
       so <- lift (StatObject.__init__ (Some (StatObject.PyStr data)) None None) ;;
       cur <- gets stat_objects ;;
       upd <- lift (list_assign i so cur) ;;
       modify (set_stat_objects upd)).

(** The tail of [__init__] (lines 122-126). *)
Definition construct (fuel : nat) (create : bool) (paths : list string)
  : M state (option (list Byte.byte)) :=
  if create then
    init_from_paths fuel paths ;;
    written <- export_fs ;;
    ret (Some written)
  else
    import_fs ;;
    ret None.

(** *** What a walk can do to the state

    Every change the walker makes is one of two steps: it prints,
    or it records an entry, which is [new_node] on a name not yet
    in [names] followed by the append of a record made from the
    entry's [lstat]. *)

Definition node_state (name : string) (so : StatObject.t) (s : state) : state :=
  set_stat_objects (stat_objects s ++ [so])%list
    (set_names (Dict.set name (inode (self s)) (names s))
       (set_inode (inode (self s) + 1) s)).

Inductive step : state -> state -> Prop :=
| step_emit e s : step s (emit e s)
| step_node canonical_path sr so s :
    Py.startswith canonical_path (base (self s)) = true ->
    lstat os canonical_path = Ok sr ->
    Dict.mem (Py.slice_from (base_len (self s)) canonical_path) (names s) = false ->
    StatObject.__init__ None (Some sr) (Some (inode (self s))) = Ok so ->
    step s (node_state (Py.slice_from (base_len (self s)) canonical_path) so s).

Inductive reach : state -> state -> Prop :=
| reach_refl s : reach s s
| reach_step s1 s2 s3 : reach s1 s2 -> step s2 s3 -> reach s1 s3.

(** The record [so] is the capture of the entry named [name], with
    identity [i]: it was made from the [lstat] of a path under
    [base] whose remainder is [name]. *)
Definition belongs (fs : t) (name : string) (i : Z) (so : StatObject.t) : Prop :=
  exists canonical_path sr,
    Py.startswith canonical_path (base fs) = true
    /\ name = Py.slice_from (base_len fs) canonical_path
    /\ lstat os canonical_path = Ok sr
    /\ StatObject.__init__ None (Some sr) (Some i) = Ok so.

(** [names] and [stat_objects] run in parallel, the [j]-th name
    having identity [k + j] and the [j]-th record being its
    capture. *)
Inductive numbered (fs : t) : nat -> Dict.t -> list StatObject.t -> Prop :=
| numbered_nil k : numbered fs k [] []
| numbered_cons k name so d l :
    belongs fs name (Z.of_nat k) so ->
    numbered fs (S k) d l ->
    numbered fs k ((name, Z.of_nat k) :: d) (so :: l).

Definition well_numbered (s : state) : Prop :=
  inode (self s) = Z.of_nat (List.length (stat_objects s))
  /\ NoDup (Dict.keys (names s))
  /\ numbered (self s) 0 (names s) (stat_objects s).

(** The claim about identities, on a state: the counter is the
    number of names and of records, the identities are exactly
    [0 .. count-1], no identity serves two names, and the record at
    index [i] is the capture of the name whose identity is [i]. *)
Definition identities_dense (s : state) : Prop :=
  let count := Z.of_nat (List.length (names s)) in
  inode (self s) = count
  /\ List.length (stat_objects s) = List.length (names s)
  /\ (forall i, (exists n, Dict.get n (names s) = Some i) <-> 0 <= i < count)
  /\ (forall n1 n2 i,
        Dict.get n1 (names s) = Some i -> Dict.get n2 (names s) = Some i ->
        n1 = n2)
  /\ (forall n i,
        Dict.get n (names s) = Some i ->
        exists so,
          nth_error (stat_objects s) (Z.to_nat i) = Some so
          /\ StatObject.inode so = Some i
          /\ belongs (self s) n i so).

(** What a walk leaves alone: the instance's settings, and the
    names, records and output already there. *)
Definition extends (s s' : state) : Prop :=
  base (self s') = base (self s)
  /\ base_len (self s') = base_len (self s)
  /\ follow (self s') = follow (self s)
  /\ bailout (self s') = bailout (self s)
  /\ maxsize (self s') = maxsize (self s)
  /\ dev (self s') = dev (self s)
  /\ (exists l, names s' = names s ++ l)%list
  /\ (exists l, stat_objects s' = stat_objects s ++ l)%list
  /\ (exists l, stdout s' = stdout s ++ l)%list.

(** A computation all of whose state changes are such steps. *)
Definition sound {A} (c : M state A) : Prop :=
  forall s s', final_state (c s) = Some s' -> reach s s'.

End Walk.

End FileSystem.

(** ** A small tree to run the code on

    Base directory [/x] on device 1 holding a regular file [a] of 10
    bytes, a directory [b] with a regular file [c] of 20 bytes, a
    symbolic link [l] to [a], a mount point [m] of device 2 with a file
    [f], a directory [d] that vanishes before it is listed, a directory
    [p] that may not be listed, and a name [gone] that a listing gave
    and [lstat] no longer finds.  Next to [/x] lies the file [/xy].
    The directory [q] (mode 0o040500, owned by root) has metadata whose
    40 packed bytes are all ASCII, so that a file holding them reads
    back in text mode as the same characters. *)

Module Demo.

Definition entry (mode dev size : Z) : stat_result :=
  {| st_mode := mode; st_dev := dev; st_gid := 100; st_uid := 1000;
     st_ctime := 1700000000; st_mtime := 1700000001; st_size := size |}.

Definition dir_mode : Z := 16877.    (* 0o040755 *)
Definition reg_mode : Z := 33188.    (* 0o100644 *)
Definition lnk_mode : Z := 41471.    (* 0o120777 *)

Definition table : list (string * stat_result) :=
  [ ("/x", entry dir_mode 1 4096);
    ("/x/a", entry reg_mode 1 10);
    ("/x/b", entry dir_mode 1 4096);
    ("/x/b/c", entry reg_mode 1 20);
    ("/x/l", entry lnk_mode 1 1);
    ("/x/m", entry dir_mode 2 4096);
    ("/x/m/f", entry reg_mode 2 5);
    ("/x/d", entry dir_mode 1 4096);
    ("/x/p", entry dir_mode 1 4096);
    ("/xy", entry reg_mode 1 7);
    ("/x/q", {| st_mode := 16704; st_dev := 1; st_gid := 0; st_uid := 0;
                st_ctime := 1699963489; st_mtime := 1699963489;
                st_size := 64 |}) ].

Fixpoint find (p : string) (t : list (string * stat_result)) : result stat_result :=
  match t with
  | [] => Err FileNotFoundError
  | (q, sr) :: t' => if String.eqb p q then Ok sr else find p t'
  end.

Definition ls (p : string) : result (list string) :=
  if String.eqb p "/x" then Ok ["a"; "b"; "l"; "m"]
  else if String.eqb p "/x/b" then Ok ["c"]
  else if String.eqb p "/x/m" then Ok ["f"]
  else if String.eqb p "/x/d" then Err FileNotFoundError
  else if String.eqb p "/x/p" then Err PermissionError
  else Err (OtherOSError 20).

Definition os : OS :=
  {| getcwd := "/x";
     resolve := fun p =>
       let q := PosixPath.abspath "/x" p in
       if String.eqb q "/x/l" then "/x/a" else q;
     lstat := fun p => find p table;
     listdir := ls;
     path_exists := fun _ => false;
     read_text := fun _ => Err FileNotFoundError |}.

(** The same tree once [text] can be read back from [path]. *)
Definition with_file (path text : string) : OS :=
  {| getcwd := getcwd os; resolve := resolve os; lstat := lstat os;
     listdir := listdir os;
     path_exists := fun p => String.eqb p path;
     read_text := fun p => if String.eqb p path then Ok text
                           else Err FileNotFoundError |}.

Definition fs (follow bailout : bool) (maxsize : PyInt.arg) : FileSystem.t :=
  FileSystem.make "/x" follow bailout false maxsize "snap".

(** An instance whose [dev] is bound, as inside the walk. *)
Definition walking (follow bailout : bool) (maxsize : PyInt.arg)
    (names : Dict.t) (records : list StatObject.t) : FileSystem.state :=
  FileSystem.set_inode (Z.of_nat (List.length records))
    (FileSystem.set_dev 1
       {| FileSystem.self := fs follow bailout maxsize;
          FileSystem.names := names;
          FileSystem.stat_objects := records;
          FileSystem.stdout := [] |}).

Definition record_of (p : string) (i : Z) : list StatObject.t :=
  match find p table with
  | Ok sr =>
      match StatObject.__init__ None (Some sr) (Some i) with
      | Ok so => [so]
      | Err _ => []
      end
  | Err _ => []
  end.

End Demo.

(** * Properties *)

Import FileSystem.

(** ** Running the code on the small tree *)

Example join_abs : PosixPath.join "/x" "/ab" = "/ab".
Proof. reflexivity. Qed.

Example abspath_dotdot :
  PosixPath.abspath "/" (PosixPath.join "/x" "../xy//z/.") = "/xy/z".
Proof. reflexivity. Qed.

Example abspath_rel : PosixPath.abspath "/home/u" "a/../b" = "/home/u/b".
Proof. reflexivity. Qed.

Example int_of_str_ex :
  PyInt.of_str " 1_000 " = Ok 1000 /\ PyInt.of_str "-15" = Ok (-15)
  /\ PyInt.of_str "1__0" = Err (ValueError (InvalidLiteral "1__0")).
Proof. repeat split; reflexivity. Qed.

(** White space for [int()] is not white space for [str.strip]. *)
Example int_white_space_ex :
  let t := String "031" "12" in
  Py.strip t = "12"
  /\ PyInt.of_str t = Err (ValueError (InvalidLiteral t))
  /\ PyInt.of_str (String "160" "12" ++ Py.NL) = Ok 12.
Proof. repeat split; reflexivity. Qed.

(** The digit limit of the decimal conversions, in both directions. *)
Example int_digit_limit_ex :
  let ones n := String.concat "" (repeat "1" n) in
  (exists v, PyInt.of_str (ones 4300%nat) = Ok v)
  /\ PyInt.of_str (ones 4301%nat ++ "x") = Err (ValueError DigitLimit)
  /\ PyInt.of_str (ones 4301%nat ++ "_")
     = Err (ValueError (InvalidLiteral (ones 4301%nat ++ "_")))
  /\ PyInt.fits (10 ^ 4300 - 1) = true
  /\ PyInt.format (- 10 ^ 4300) = Err (ValueError DigitLimit).
Proof.
  intros ones. split; [eexists; vm_compute; reflexivity |].
  repeat split; vm_compute; reflexivity.
Qed.

(** The size-filtering scenario: with [maxsize = 15] and [follow] set,
    the roots [a] and [b] give nodes for [a] and [b] and none for
    [b/c]. *)
Example walk_size_filter :
  exists s',
    init_from_paths Demo.os "/x" 5 ["a"; "b"]
      (first_instance (Demo.fs true false (PyInt.ArgStr "15"))) = Done tt s'
    /\ names s' = [("a", 0); ("b", 1)]
    /\ inode (self s') = 2
    /\ stat_objects s' = (Demo.record_of "/x/a" 0 ++ Demo.record_of "/x/b" 1)%list
    /\ stdout s' = [SkipTooLarge "/x/b/c" 20].
Proof. eexists. repeat split; vm_compute; reflexivity. Qed.

(** ** [new_node] on a name that is already there *)

(** C10. With [bailout] unset, [new_node] on a name already in
    [names] returns [None] and changes nothing: [names] (hence the
    identity the name already had), the counter [inode], the record
    list and everything else of the state are as before. *)
Theorem new_node_present_no_bailout name s :
  Dict.mem name (names s) = true ->
  bailout (self s) = false ->
  new_node name s = Done None s.
Proof.
  intros Hmem Hb. unfold new_node, bind, gets. rewrite Hmem, Hb. reflexivity.
Qed.

Lemma new_node_present_no_bailout_witness :
  new_node "a" (Demo.walking true false PyInt.ArgNone [("a", 0)] (Demo.record_of "/x/a" 0))
  = Done None (Demo.walking true false PyInt.ArgNone [("a", 0)] (Demo.record_of "/x/a" 0)).
Proof. apply new_node_present_no_bailout; reflexivity. Defined.

(** ** Prefixes *)

Lemma prefix_refl a : String.prefix a a = true.
Proof.
  induction a as [| c a IH]; cbn; [reflexivity |].
  destruct (ascii_dec c c); [exact IH | congruence].
Qed.

Lemma prefix_app a b p : String.prefix (a ++ b) p = true -> String.prefix a p = true.
Proof.
  revert p. induction a as [| c a IH]; intros p.
  - intros _. destruct p; reflexivity.
  - destruct p as [| d p]; cbn; [discriminate |].
    destruct (ascii_dec c d); [apply IH | discriminate].
Qed.

Lemma lies_under_startswith base path :
  lies_under base path = true -> Py.startswith path base = true.
Proof.
  unfold lies_under, Py.startswith. intros H.
  apply orb_true_iff in H. destruct H as [H | H].
  - apply String.eqb_eq in H. subst. apply prefix_refl.
  - destruct (String.eqb_spec base "/") as [-> | _]; [exact H |].
    apply (prefix_app base "/" path). exact H.
Qed.

Lemma slice_from_sep a c r :
  Py.slice_from (String.length a + 1) (a ++ String c r) = r.
Proof. induction a as [| d a IH]; cbn; [reflexivity | exact IH]. Qed.

(** The name of an entry under the base is what follows the base and
    the separator: [base_len] is chosen for that, also for [/]. *)
Lemma make_strips_base base follow bailout progress maxsize name r :
  Py.slice_from (base_len (make base follow bailout progress maxsize name))
    (if String.eqb base "/" then "/" ++ r else base ++ "/" ++ r) = r.
Proof.
  cbn. destruct (String.eqb base "/"); cbn; [reflexivity | apply slice_from_sep].
Qed.

(** ** Dictionaries *)

Lemma Dict_get_In k v d : Dict.get k d = Some v -> In (k, v) d.
Proof.
  induction d as [| [k' v'] d IH]; cbn; [discriminate |].
  destruct (String.eqb_spec k k') as [-> | _].
  - intros H; inversion H. left. reflexivity.
  - intros H. right. apply IH. exact H.
Qed.

Lemma Dict_get_first k v d :
  NoDup (Dict.keys d) -> In (k, v) d -> Dict.get k d = Some v.
Proof.
  induction d as [| [k' v'] d IH]; cbn; [intros _ [] |].
  intros Hnd [E | Hin].
  - inversion E; subst. rewrite String.eqb_refl. reflexivity.
  - inversion Hnd as [| ? ? Hnotin Hnd']; subst.
    destruct (String.eqb_spec k k') as [-> | _].
    + exfalso. apply Hnotin. change k' with (fst (k', v)).
      apply in_map. exact Hin.
    + apply IH; assumption.
Qed.

Lemma Dict_mem_keys k d : Dict.mem k d = false -> ~ In k (Dict.keys d).
Proof.
  unfold Dict.mem. induction d as [| [k' v'] d IH]; cbn; [intros _ [] |].
  destruct (String.eqb_spec k k') as [-> | Hne]; [discriminate |].
  intros H [E | Hin]; [congruence | exact (IH H Hin)].
Qed.

Lemma Dict_set_fresh k v d :
  Dict.mem k d = false -> Dict.set k v d = (d ++ [(k, v)])%list.
Proof.
  unfold Dict.mem. induction d as [| [k' v'] d IH]; cbn; [reflexivity |].
  destruct (String.eqb k k'); [discriminate |].
  intros H. rewrite (IH H). reflexivity.
Qed.

Lemma Dict_get_app k v d l :
  Dict.get k d = Some v -> Dict.get k (d ++ l)%list = Some v.
Proof.
  induction d as [| [k' v'] d IH]; cbn; [discriminate |].
  destruct (String.eqb k k'); [trivial | exact IH].
Qed.

Lemma Dict_get_set_same k v d :
  Dict.mem k d = false -> Dict.get k (Dict.set k v d) = Some v.
Proof.
  unfold Dict.mem. induction d as [| [k' v'] d IH]; cbn.
  - rewrite String.eqb_refl. reflexivity.
  - destruct (String.eqb k k') eqn:E; [discriminate |].
    cbn. rewrite E. exact IH.
Qed.

Create HintDb walk.

(** ** Unfolding the walker *)

Section WalkFacts.

Variable os : OS.
Variable module_base : string.

Abbreviation walk := (_init_from_paths os module_base).
Abbreviation canonical := (canonical_path_of os module_base).
Abbreviation absolute := (abs_path_of module_base).

Lemma int_maxsize_self s s' m :
  self s = self s' -> int_maxsize s = Done m s -> int_maxsize s' = Done m s'.
Proof.
  unfold int_maxsize, bind, gets. intros E. rewrite E.
  destruct (PyInt.int (maxsize (self s'))) as [z | e]; cbn.
  - intros H. inversion H. reflexivity.
  - destruct e; cbn; intros H; inversion H; reflexivity.
Qed.

Lemma walk_cons fuel cwd path rest s m :
  int_maxsize s = Done m s ->
  walk (S fuel) cwd (path :: rest) s
  = match visit_guarded os module_base (walk fuel) m cwd path s with
    | Done _ s' => for_each rest (visit_guarded os module_base (walk fuel) m cwd) s'
    | Raised e s' => Raised e s'
    | OutOfFuel => OutOfFuel
    end.
Proof. intros H. cbn [_init_from_paths]. unfold bind at 1. rewrite H. reflexivity. Qed.

Lemma walk_resume fuel cwd rest s m :
  int_maxsize s = Done m s ->
  for_each rest (visit_guarded os module_base (walk fuel) m cwd) s
  = walk (S fuel) cwd rest s.
Proof. intros H. cbn [_init_from_paths]. unfold bind. rewrite H. reflexivity. Qed.

(** The entry's own steps up to the device test, under the conditions
    in which it is reached. *)
Lemma visit_reaches_stat recurse m cwd path s :
  Py.startswith (canonical cwd path) (base (self s)) = true ->
  visit os module_base recurse m cwd path s
  = match lstat os (canonical cwd path) with
    | Err e => Raised e s
    | Ok sr =>
        match dev (self s) with
        | None => Raised AttributeError s
        | Some d =>
            if negb (st_dev sr =? d) then
              Done tt (emit (SkipOtherFS (canonical cwd path)) s)
            else
              (record_entry m (Py.slice_from (base_len (self s)) (canonical cwd path))
                 (canonical cwd path) (relative_path_of cwd path) sr ;;
               descend os recurse (absolute cwd path) (canonical cwd path)
                 (relative_path_of cwd path) sr) s
        end
    end.
Proof.
  intros H. unfold visit, bind, gets. cbn. rewrite H. cbn.
  destruct (lstat os (canonical cwd path)) as [sr | e]; cbn; [| reflexivity].
  destruct (dev (self s)) as [d |]; cbn; [| reflexivity].
  destruct (negb (st_dev sr =? d)); reflexivity.
Qed.

(** ** Every walk is a sequence of steps *)

Abbreviation reach := (FileSystem.reach os).
Abbreviation sound := (FileSystem.sound os).

Lemma reach_trans s1 s2 s3 : reach s1 s2 -> reach s2 s3 -> reach s1 s3.
Proof.
  intros H12 H23. induction H23 as [| s2 s3 s4 _ IH Hst]; [exact H12 |].
  eapply reach_step; [apply IH; exact H12 | exact Hst].
Qed.

Lemma reach_emit e s : reach s (emit e s).
Proof. eapply reach_step; [apply reach_refl | apply step_emit]. Qed.

Lemma sound_ret A (a : A) : sound (ret a).
Proof. intros s s' H. inversion H. apply reach_refl. Qed.

Lemma sound_raise A e : sound (raise e : M state A).
Proof. intros s s' H. inversion H. apply reach_refl. Qed.

Lemma sound_gets A (f : state -> A) : sound (gets f).
Proof. intros s s' H. inversion H. apply reach_refl. Qed.

Lemma sound_lift A (r : result A) : sound (lift r).
Proof. destruct r; [apply sound_ret | apply sound_raise]. Qed.

Lemma sound_print e : sound (print e).
Proof. intros s s' H. inversion H. apply reach_emit. Qed.

Lemma sound_bind A B (c : M state A) (k : A -> M state B) :
  sound c -> (forall a, sound (k a)) -> sound (bind c k).
Proof.
  intros Hc Hk s s'. unfold bind.
  destruct (c s) as [a s1 | e s1 |] eqn:E; intros H.
  - eapply reach_trans; [apply Hc; rewrite E; reflexivity | eapply Hk; exact H].
  - apply Hc. rewrite E. exact H.
  - discriminate.
Qed.

Lemma sound_try A (c h : M state A) handled :
  sound c -> sound h -> sound (try_except c handled h).
Proof.
  intros Hc Hh s s'. unfold try_except.
  destruct (c s) as [a s1 | e s1 |] eqn:E; intros H.
  - apply Hc. rewrite E. exact H.
  - destruct (handled e).
    + eapply reach_trans; [apply Hc; rewrite E; reflexivity | apply Hh; exact H].
    + apply Hc. rewrite E. exact H.
  - discriminate.
Qed.

Lemma sound_for_each A (xs : list A) (body : A -> M state unit) :
  (forall x, sound (body x)) -> sound (for_each xs body).
Proof.
  intros Hb. induction xs as [| x xs IH]; cbn [for_each].
  - apply sound_ret.
  - apply sound_bind; [apply Hb | intros _; exact IH].
Qed.

Hint Resolve sound_ret sound_raise sound_gets sound_lift sound_print : walk.

Lemma sound_int_maxsize : sound int_maxsize.
Proof.
  unfold int_maxsize. apply sound_bind; [auto with walk |]. intros a.
  destruct (PyInt.int a) as [z | e]; [auto with walk |].
  destruct e; auto with walk.
Qed.

Lemma sound_descend recurse abs_path cpath rpath sr :
  (forall cwd ps, sound (recurse cwd ps)) ->
  sound (descend os recurse abs_path cpath rpath sr).
Proof.
  intros Hrec. unfold descend.
  destruct (S_ISDIR (st_mode sr)); [| auto with walk].
  apply sound_bind; [auto with walk |]. intros fol.
  destruct fol; [| auto with walk].
  repeat apply sound_try; auto with walk.
  apply sound_bind; [auto with walk |]. intros children. apply Hrec.
Qed.

(** What recording an entry does, case by case. *)
Lemma record_entry_cases m name cpath rpath sr s :
  (too_large m sr = true
   /\ record_entry m name cpath rpath sr s
      = Done tt (emit (SkipTooLarge cpath (st_size sr)) s))
  \/ (too_large m sr = false /\ Dict.mem name (names s) = true
      /\ bailout (self s) = true
      /\ record_entry m name cpath rpath sr s
         = Raised (ValueError (Duplicate name)) s)
  \/ (too_large m sr = false /\ Dict.mem name (names s) = true
      /\ bailout (self s) = false
      /\ record_entry m name cpath rpath sr s
         = Done tt (emit (SkipDuplicate name cpath (base (self s)) rpath) s))
  \/ (too_large m sr = false /\ Dict.mem name (names s) = false
      /\ exists so,
           StatObject.__init__ None (Some sr) (Some (inode (self s))) = Ok so
           /\ (record_entry m name cpath rpath sr s = Done tt (node_state name so s)
               \/ record_entry m name cpath rpath sr s
                  = Done tt (emit (ProgressTick (inode (self s) + 1))
                               (node_state name so s)))).
Proof.
  unfold record_entry. destruct (too_large m sr).
  - left. split; reflexivity.
  - right. unfold bind, new_node, bind, gets.
    destruct (Dict.mem name (names s)) eqn:Hmem.
    + destruct (bailout (self s)) eqn:Hb.
      * left. repeat split; reflexivity.
      * right. left. repeat split; reflexivity.
    + right. right. repeat split. cbn.
      eexists. split; [reflexivity |].
      destruct (progress (self s) && ((inode (self s) + 1) mod 1000 =? 0))%bool;
        [right | left]; reflexivity.
Qed.

Lemma record_entry_reach m cpath rpath sr s s' :
  Py.startswith cpath (base (self s)) = true ->
  lstat os cpath = Ok sr ->
  final_state (record_entry m (Py.slice_from (base_len (self s)) cpath)
                 cpath rpath sr s) = Some s' ->
  reach s s'.
Proof.
  intros Hpre Hst.
  destruct (record_entry_cases m (Py.slice_from (base_len (self s)) cpath)
              cpath rpath sr s)
    as [(_ & E) | [(_ & _ & _ & E) | [(_ & _ & _ & E) | (_ & Hmem & so & Hso & [E | E])]]];
    rewrite E; cbn; intros H; inversion H; subst.
  - apply reach_emit.
  - apply reach_refl.
  - apply reach_emit.
  - eapply reach_step; [apply reach_refl | eapply step_node; eassumption].
  - eapply reach_step; [| apply step_emit].
    eapply reach_step; [apply reach_refl | eapply step_node; eassumption].
Qed.

Lemma visit_reach recurse m cwd path s s' :
  (forall cwd ps, sound (recurse cwd ps)) ->
  final_state (visit os module_base recurse m cwd path s) = Some s' ->
  reach s s'.
Proof.
  intros Hrec.
  destruct (Py.startswith (canonical cwd path) (base (self s))) eqn:Hpre.
  - rewrite (visit_reaches_stat _ _ _ _ _ Hpre).
    destruct (lstat os (canonical cwd path)) as [sr | e] eqn:Hst.
    + destruct (dev (self s)) as [d |].
      * destruct (negb (st_dev sr =? d)).
        -- cbn. intros H; inversion H. apply reach_emit.
        -- unfold bind at 1.
           destruct (record_entry m _ _ _ sr s) as [[] s1 | e s1 |] eqn:E; intros H.
           ++ eapply reach_trans.
              ** eapply record_entry_reach; [exact Hpre | exact Hst |].
                 rewrite E. reflexivity.
              ** eapply sound_descend; [exact Hrec | exact H].
           ++ eapply record_entry_reach; [exact Hpre | exact Hst |].
              rewrite E. exact H.
           ++ discriminate.
      * cbn. intros H; inversion H. apply reach_refl.
    + cbn. intros H; inversion H. apply reach_refl.
  - unfold visit, bind, gets. cbn. rewrite Hpre. cbn.
    intros H; inversion H. apply reach_emit.
Qed.

Lemma sound_visit_guarded recurse m cwd path :
  (forall cwd ps, sound (recurse cwd ps)) ->
  sound (visit_guarded os module_base recurse m cwd path).
Proof.
  intros Hrec. unfold visit_guarded. apply sound_try.
  - intros s s'. apply visit_reach. exact Hrec.
  - apply sound_bind; [auto with walk |]. intros [|]; auto with walk.
Qed.

Lemma sound_walk fuel : forall cwd paths, sound (walk fuel cwd paths).
Proof.
  induction fuel as [| fuel IH]; intros cwd paths.
  - intros s s' H. discriminate.
  - cbn [_init_from_paths]. apply sound_bind; [apply sound_int_maxsize |].
    intros m. apply sound_for_each. intros path.
    apply sound_visit_guarded. exact IH.
Qed.

(** ** What every walk preserves *)

Abbreviation extends := FileSystem.extends.
Abbreviation belongs := (FileSystem.belongs os).
Abbreviation numbered := (FileSystem.numbered os).
Abbreviation well_numbered := (FileSystem.well_numbered os).
Abbreviation identities_dense := (FileSystem.identities_dense os).

Lemma extends_refl s : extends s s.
Proof.
  repeat split; try reflexivity; exists []; rewrite app_nil_r; reflexivity.
Qed.

Lemma extends_trans s1 s2 s3 : extends s1 s2 -> extends s2 s3 -> extends s1 s3.
Proof.
  intros (a1 & a2 & a3 & a4 & a5 & a6 & [n1 N1] & [r1 R1] & [o1 O1])
         (b1 & b2 & b3 & b4 & b5 & b6 & [n2 N2] & [r2 R2] & [o2 O2]).
  repeat split; try congruence.
  - exists (n1 ++ n2)%list. rewrite N2, N1, app_assoc. reflexivity.
  - exists (r1 ++ r2)%list. rewrite R2, R1, app_assoc. reflexivity.
  - exists (o1 ++ o2)%list. rewrite O2, O1, app_assoc. reflexivity.
Qed.

Lemma step_extends s s' : step os s s' -> extends s s'.
Proof.
  intros [e s0 | cpath sr so s0 Hpre Hst Hmem Hso].
  - repeat split; cbn; try reflexivity.
    + exists []. rewrite app_nil_r. reflexivity.
    + exists []. rewrite app_nil_r. reflexivity.
    + exists [e]. reflexivity.
  - repeat split; cbn; try reflexivity.
    + eexists. apply Dict_set_fresh. exact Hmem.
    + exists [so]. reflexivity.
    + exists []. rewrite app_nil_r. reflexivity.
Qed.

Lemma reach_extends s s' : reach s s' -> extends s s'.
Proof.
  induction 1 as [s | s1 s2 s3 _ IH Hst]; [apply extends_refl |].
  eapply extends_trans; [exact IH | apply step_extends; exact Hst].
Qed.

Lemma belongs_settings fs fs' name i so :
  base fs' = base fs -> base_len fs' = base_len fs ->
  belongs fs name i so -> belongs fs' name i so.
Proof.
  intros Hb Hl (cpath & sr & H1 & H2 & H3 & H4).
  exists cpath, sr. rewrite Hb, Hl. repeat split; assumption.
Qed.

Lemma numbered_settings fs fs' k d l :
  base fs' = base fs -> base_len fs' = base_len fs ->
  numbered fs k d l -> numbered fs' k d l.
Proof.
  intros Hb Hl. induction 1 as [k | k name so d l Hbel _ IH].
  - apply numbered_nil.
  - apply numbered_cons; [eapply belongs_settings; eassumption | exact IH].
Qed.

Lemma numbered_snoc fs k d l name so :
  numbered fs k d l ->
  belongs fs name (Z.of_nat (k + List.length l)) so ->
  numbered fs k (d ++ [(name, Z.of_nat (k + List.length l))])%list (l ++ [so])%list.
Proof.
  induction 1 as [k | k name0 so0 d l Hbel _ IH]; cbn [List.length app].
  - rewrite Nat.add_0_r. intros Hb.
    apply numbered_cons; [exact Hb | apply numbered_nil].
  - rewrite Nat.add_succ_r. intros Hb.
    apply numbered_cons; [exact Hbel | apply IH; exact Hb].
Qed.

Lemma numbered_length fs k d l :
  numbered fs k d l -> List.length d = List.length l.
Proof. induction 1; cbn; congruence. Qed.

Lemma numbered_get fs k d l name i :
  numbered fs k d l ->
  Dict.get name d = Some i ->
  exists j so,
    i = Z.of_nat (k + j)
    /\ nth_error d j = Some (name, i)
    /\ nth_error l j = Some so
    /\ belongs fs name i so.
Proof.
  induction 1 as [k | k name0 so0 d l Hbel _ IH]; cbn [Dict.get]; [discriminate |].
  destruct (String.eqb_spec name name0) as [-> | _].
  - intros H; inversion H; subst. exists 0%nat, so0.
    rewrite Nat.add_0_r. repeat split; try reflexivity. exact Hbel.
  - intros H. destruct (IH H) as (j & so & Hi & Hd & Hl & Hb).
    exists (S j), so. rewrite Nat.add_succ_r. repeat split; assumption.
Qed.

Lemma numbered_nth fs k d l j :
  numbered fs k d l ->
  (j < List.length l)%nat ->
  exists name, nth_error d j = Some (name, Z.of_nat (k + j)).
Proof.
  intros H. revert j.
  induction H as [k | k name0 so0 d l Hbel _ IH]; cbn [List.length]; intros j Hj.
  - lia.
  - destruct j as [| j].
    + exists name0. rewrite Nat.add_0_r. reflexivity.
    + destruct (IH j ltac:(lia)) as [name Hn].
      exists name. rewrite Nat.add_succ_r. exact Hn.
Qed.

Lemma step_well_numbered s s' :
  step os s s' -> well_numbered s -> well_numbered s'.
Proof.
  intros [e s0 | cpath sr so s0 Hpre Hst Hmem Hso] (Hi & Hnd & Hnum).
  - repeat split; assumption.
  - unfold FileSystem.well_numbered, node_state. cbn.
    rewrite (Dict_set_fresh _ _ _ Hmem). repeat split.
    + rewrite length_app. cbn. lia.
    + unfold Dict.keys. rewrite map_app. cbn.
      apply NoDup_app; [exact Hnd | constructor; [intros [] | constructor] |].
      intros a Ha [E | []]. subst a.
      apply (Dict_mem_keys _ _ Hmem). exact Ha.
    + rewrite Hi in *.
      apply (numbered_settings (self s0)); [reflexivity | reflexivity |].
      apply numbered_snoc with (k := 0%nat); [exact Hnum |].
      exists cpath, sr. repeat split; assumption.
Qed.

Lemma reach_well_numbered s s' :
  reach s s' -> well_numbered s -> well_numbered s'.
Proof.
  induction 1 as [s | s1 s2 s3 _ IH Hst]; [trivial |].
  intros H. eapply step_well_numbered; [exact Hst | apply IH; exact H].
Qed.

Lemma well_numbered_dense s : well_numbered s -> identities_dense s.
Proof.
  intros (Hi & Hnd & Hnum).
  pose proof (numbered_length _ _ _ _ Hnum) as Hlen.
  unfold FileSystem.identities_dense. cbn zeta. repeat split.
  - rewrite Hi, Hlen. reflexivity.
  - symmetry. exact Hlen.
  - destruct H as [n Hn].
    destruct (numbered_get _ _ _ _ _ _ Hnum Hn) as (j & so & -> & _ & _ & _). lia.
  - destruct H as [n Hn].
    destruct (numbered_get _ _ _ _ _ _ Hnum Hn) as (j & so & -> & _ & Hl & _).
    assert (j < List.length (stat_objects s))%nat
      by (apply nth_error_Some; congruence).
    lia.
  - intros [H0 H1].
    destruct (numbered_nth _ _ _ _ (Z.to_nat i) Hnum ltac:(lia)) as [n Hn].
    exists n. apply Dict_get_first; [exact Hnd |].
    apply nth_error_In with (n := Z.to_nat i).
    rewrite Hn. cbn. rewrite Z2Nat.id by lia. reflexivity.
  - intros n1 n2 i H1 H2.
    destruct (numbered_get _ _ _ _ _ _ Hnum H1) as (j1 & _ & E1 & D1 & _).
    destruct (numbered_get _ _ _ _ _ _ Hnum H2) as (j2 & _ & E2 & D2 & _).
    assert (j1 = j2) by lia. subst j2. congruence.
  - intros n i Hn.
    destruct (numbered_get _ _ _ _ _ _ Hnum Hn) as (j & so & E & _ & Hl & Hb).
    exists so. repeat split.
    + subst i. cbn. rewrite Nat2Z.id. exact Hl.
    + destruct Hb as (cpath & sr & _ & _ & _ & Hso). cbn in Hso.
      inversion Hso. reflexivity.
    + exact Hb.
Qed.

(** ** Identity density *)

Lemma init_from_paths_reach fuel paths s s' :
  final_state (init_from_paths os module_base fuel paths s) = Some s' ->
  s' = s \/ exists d, reach (set_dev d s) s'.
Proof.
  unfold init_from_paths, bind, gets, lift. cbn.
  destruct (lstat os (os_abspath os (base (self s)))) as [sr | e]; cbn.
  - destruct (walk fuel None paths (set_dev (st_dev sr) s))
      as [[] s1 | e s1 |] eqn:E; intros H.
    + right. exists (st_dev sr).
      assert (R : reach (set_dev (st_dev sr) s) s1)
        by (apply (sound_walk fuel None paths); rewrite E; reflexivity).
      destruct (progress (self s1)); cbn in H; inversion H; subst.
      * eapply reach_trans; [exact R | apply reach_emit].
      * exact R.
    + right. exists (st_dev sr). inversion H; subst.
      apply (sound_walk fuel None paths). rewrite E. reflexivity.
    + discriminate.
  - intros H. inversion H. left. reflexivity.
Qed.

Lemma init_from_paths_well_numbered fuel paths s s' :
  well_numbered s ->
  final_state (init_from_paths os module_base fuel paths s) = Some s' ->
  well_numbered s'.
Proof.
  intros Hwn H. destruct (init_from_paths_reach _ _ _ _ H) as [-> | [d R]].
  - exact Hwn.
  - apply (reach_well_numbered _ _ R).
    destruct Hwn as (Hi & Hnd & Hnum). repeat split; try assumption.
    apply (numbered_settings (self s)); [reflexivity | reflexivity | exact Hnum].
Qed.


(** ** The rest of an iteration, once the entry is recorded or skipped *)

Abbreviation continue fuel m cwd path rest sr :=
  (try_except
     (descend os (walk fuel) (absolute cwd path) (canonical cwd path)
        (relative_path_of cwd path) sr)
     is_FileNotFoundError on_missing ;;
   for_each rest (visit_guarded os module_base (walk fuel) m cwd)).

Lemma sound_on_missing : sound on_missing.
Proof.
  unfold on_missing. apply sound_bind; [auto with walk |].
  intros [|]; auto with walk.
Qed.

Lemma sound_continue fuel m cwd path rest sr :
  sound (continue fuel m cwd path rest sr).
Proof.
  apply sound_bind.
  - apply sound_try; [| apply sound_on_missing].
    apply sound_descend. apply sound_walk.
  - intros _. apply sound_for_each. intros p.
    apply sound_visit_guarded. apply sound_walk.
Qed.

Lemma walk_cons_after_record fuel cwd path rest s m sr s1 :
  int_maxsize s = Done m s ->
  Py.startswith (canonical cwd path) (base (self s)) = true ->
  lstat os (canonical cwd path) = Ok sr ->
  dev (self s) = Some (st_dev sr) ->
  record_entry m (Py.slice_from (base_len (self s)) (canonical cwd path))
    (canonical cwd path) (relative_path_of cwd path) sr s = Done tt s1 ->
  walk (S fuel) cwd (path :: rest) s = continue fuel m cwd path rest sr s1.
Proof.
  intros Hm Hpre Hst Hdev Hrec.
  rewrite (walk_cons _ _ _ _ _ _ Hm).
  unfold visit_guarded at 1. unfold try_except at 1.
  rewrite (visit_reaches_stat _ _ _ _ _ Hpre), Hst, Hdev.
  rewrite Z.eqb_refl. cbn [negb].
  unfold bind at 1. rewrite Hrec.
  unfold bind, try_except.
  destruct (descend os (walk fuel) (absolute cwd path) (canonical cwd path)
              (relative_path_of cwd path) sr s1) as [[] s2 | e s2 |]; reflexivity.
Qed.

(** ** Duplicate names *)

(** C7. An entry whose name is already in [names].  With [bailout]
    set the walk raises the duplicate-name [ValueError] from an
    unchanged state.  With [bailout] unset the entry creates no node
    and changes no entry: a warning is printed and the walk goes on
    from that state with the rest of the iteration (the descent, if
    the entry is a directory to follow) and the remaining paths; when
    there is nothing to descend into, that is the walk of the
    remaining paths.  However the walk then ends, every name keeps
    the identity it had, the records already there stay where they
    were, and the warning is in the output. *)
Theorem duplicate_name_policy fuel cwd path rest s m sr :
  int_maxsize s = Done m s ->
  Py.startswith (canonical cwd path) (base (self s)) = true ->
  lstat os (canonical cwd path) = Ok sr ->
  dev (self s) = Some (st_dev sr) ->
  too_large m sr = false ->
  let name := Py.slice_from (base_len (self s)) (canonical cwd path) in
  let warning :=
    SkipDuplicate name (canonical cwd path) (base (self s))
      (relative_path_of cwd path) in
  Dict.mem name (names s) = true ->
  (bailout (self s) = true ->
     walk (S fuel) cwd (path :: rest) s = Raised (ValueError (Duplicate name)) s)
  /\ (bailout (self s) = false ->
      walk (S fuel) cwd (path :: rest) s
        = continue fuel m cwd path rest sr (emit warning s)
      /\ ((S_ISDIR (st_mode sr) && follow (self s))%bool = false ->
          walk (S fuel) cwd (path :: rest) s
            = walk (S fuel) cwd rest (emit warning s))
      /\ (forall s',
            final_state (walk (S fuel) cwd (path :: rest) s) = Some s' ->
            (forall k v, Dict.get k (names s) = Some v ->
                         Dict.get k (names s') = Some v)
            /\ (exists more, stat_objects s' = stat_objects s ++ more)%list
            /\ In warning (stdout s'))).
Proof.
  intros Hm Hpre Hst Hdev Htl name warning Hmem. split.
  - intros Hb. rewrite (walk_cons _ _ _ _ _ _ Hm).
    unfold visit_guarded, try_except.
    rewrite (visit_reaches_stat _ _ _ _ _ Hpre), Hst, Hdev.
    rewrite Z.eqb_refl. cbn [negb]. fold name.
    unfold bind at 1. unfold record_entry. rewrite Htl.
    unfold bind, new_node, bind, gets. rewrite Hmem, Hb. reflexivity.
  - intros Hb.
    assert (Hrec : record_entry m name (canonical cwd path)
                     (relative_path_of cwd path) sr s = Done tt (emit warning s)).
    { unfold record_entry. rewrite Htl.
      unfold bind, new_node, bind, gets. rewrite Hmem, Hb. reflexivity. }
    pose proof (walk_cons_after_record fuel cwd path rest s m sr _
                  Hm Hpre Hst Hdev Hrec) as Hw.
    split; [exact Hw | split].
    + intros Hleaf. rewrite Hw.
      unfold bind at 1. unfold try_except, descend.
      destruct (S_ISDIR (st_mode sr)); cbn in Hleaf.
      * unfold bind, gets. cbn [self emit]. rewrite Hleaf.
        apply walk_resume. apply (int_maxsize_self s); [reflexivity | exact Hm].
      * apply walk_resume. apply (int_maxsize_self s); [reflexivity | exact Hm].
    + intros s' Hfin. rewrite Hw in Hfin.
      pose proof (reach_extends _ _ (sound_continue _ _ _ _ _ _ _ _ Hfin))
        as (_ & _ & _ & _ & _ & _ & [l Hn] & [r Hr] & [o Ho]).
      cbn in Hn, Hr, Ho. repeat split.
      * intros k v Hk. rewrite Hn. apply Dict_get_app. exact Hk.
      * exists r. exact Hr.
      * rewrite Ho. apply in_or_app. left. apply in_or_app. right. left. reflexivity.
Qed.

(** ** The name an entry is recorded under *)

(** C4, as the code has it.  The entry's path is the base directory
    joined with the relative path and normalised by [os.path.abspath]:
    made absolute and cleared of [.], [..] and repeated separators,
    with no symbolic link resolved.  If that path does not start with
    the base string, the walk prints and raises [AssertionError]
    whatever [bailout] is.  If it lies under the base and the entry is
    recorded, the name it gets is that path without its first
    [base_len] characters: however the walk then ends, [names] maps
    that name to the identity drawn and the record made from the
    entry's [lstat] is at that index. *)
Theorem walker_names_entry fuel cwd path rest s m :
  module_base = base (self s) ->
  int_maxsize s = Done m s ->
  let abs_path := PosixPath.join (base (self s)) (relative_path_of cwd path) in
  let canonical_path := PosixPath.abspath (getcwd os) abs_path in
  (Py.startswith canonical_path (base (self s)) = false ->
     walk (S fuel) cwd (path :: rest) s
     = Raised AssertionError (emit (NotUnderBase canonical_path (base (self s))) s))
  /\ (lies_under (base (self s)) canonical_path = true ->
      forall sr,
        lstat os canonical_path = Ok sr ->
        dev (self s) = Some (st_dev sr) ->
        too_large m sr = false ->
        let name := Py.slice_from (base_len (self s)) canonical_path in
        Dict.mem name (names s) = false ->
        forall s',
          final_state (walk (S fuel) cwd (path :: rest) s) = Some s' ->
          Dict.get name (names s') = Some (inode (self s))
          /\ exists so,
               StatObject.__init__ None (Some sr) (Some (inode (self s))) = Ok so
               /\ nth_error (stat_objects s') (List.length (stat_objects s)) = Some so).
Proof.
  intros Hmb Hm abs_path canonical_path.
  assert (Ec : canonical_path = canonical cwd path).
  { unfold canonical_path, abs_path, canonical_path_of, abs_path_of, os_abspath.
    rewrite <- Hmb. reflexivity. }
  clearbody canonical_path. clear abs_path. subst canonical_path. split.
  - intros Hpre. rewrite (walk_cons _ _ _ _ _ _ Hm).
    unfold visit_guarded, try_except, visit, bind, gets. cbn.
    rewrite Hpre. reflexivity.
  - intros Hunder sr Hst Hdev Htl name Hmem s' Hfin.
    pose proof (lies_under_startswith _ _ Hunder) as Hpre.
    destruct (record_entry_cases m name (canonical cwd path)
                (relative_path_of cwd path) sr s)
      as [(E & _) | [(_ & E & _) | [(_ & E & _) | (_ & _ & so & Hso & Hrec)]]];
      try congruence.
    assert (Hreach : reach (node_state name so s) s').
    { destruct Hrec as [Hrec | Hrec];
        rewrite (walk_cons_after_record fuel cwd path rest s m sr _
                   Hm Hpre Hst Hdev Hrec) in Hfin;
        apply sound_continue in Hfin.
      - exact Hfin.
      - eapply reach_trans; [apply reach_emit | exact Hfin]. }
    pose proof (reach_extends _ _ Hreach)
      as (_ & _ & _ & _ & _ & _ & [l Hn] & [r Hr] & _).
    cbn in Hn, Hr. split.
    + rewrite Hn. apply Dict_get_app. apply Dict_get_set_same. exact Hmem.
    + exists so. split; [exact Hso |].
      rewrite Hr, <- app_assoc. rewrite nth_error_app2 by lia.
      rewrite Nat.sub_diag. reflexivity.
Qed.

(** ** Device boundary *)

(** C8. An entry whose device id differs from the base directory's
    adds no node and is not descended into, whatever [follow] and
    [bailout] are: the walk of [path :: rest] is the walk of [rest]
    from the state that differs only by the warning printed, so
    neither the entry's listing nor any of its descendants is looked
    at through this entry. *)
Theorem device_boundary_skips fuel cwd path rest s m sr d :
  int_maxsize s = Done m s ->
  Py.startswith (canonical cwd path) (base (self s)) = true ->
  lstat os (canonical cwd path) = Ok sr ->
  dev (self s) = Some d ->
  st_dev sr <> d ->
  let s' := emit (SkipOtherFS (canonical cwd path)) s in
  walk (S fuel) cwd (path :: rest) s = walk (S fuel) cwd rest s'
  /\ names s' = names s
  /\ stat_objects s' = stat_objects s
  /\ inode (self s') = inode (self s)
  /\ stdout s' = (stdout s ++ [SkipOtherFS (canonical cwd path)])%list.
Proof.
  intros Hm Hpre Hst Hdev Hne s'. split; [| repeat split].
  rewrite (walk_cons _ _ _ _ _ _ Hm).
  unfold visit_guarded, try_except.
  rewrite (visit_reaches_stat _ _ _ _ _ Hpre), Hst, Hdev.
  apply Z.eqb_neq in Hne. rewrite Hne. cbn.
  apply walk_resume. apply (int_maxsize_self s); [reflexivity | exact Hm].
Qed.

(** ** Entries and directories that vanish *)

Lemma record_entry_outcome m name cpath rpath sr s :
  (exists s1, record_entry m name cpath rpath sr s = Done tt s1)
  \/ (bailout (self s) = true /\ Dict.mem name (names s) = true
      /\ record_entry m name cpath rpath sr s = Raised (ValueError (Duplicate name)) s).
Proof.
  unfold record_entry.
  destruct (too_large m sr).
  - left. eexists. reflexivity.
  - unfold bind, new_node, bind, gets.
    destruct (Dict.mem name (names s)) eqn:Hmem.
    + destruct (bailout (self s)) eqn:Hb.
      * right. repeat split; reflexivity.
      * left. eexists. reflexivity.
    + left. cbn.
      destruct (progress (self s) && ((inode (self s) + 1) mod 1000 =? 0))%bool;
        eexists; reflexivity.
Qed.

(** C9. When [lstat] no longer finds the entry, the walk raises
    [FileNotFoundError] at once if [bailout] is set and otherwise goes
    on with the next path from an unchanged state, printing nothing.
    When the entry is a directory to descend into and listing it
    fails because it is gone, the walk raises whatever [bailout] is:
    [AssertionError], or the duplicate-name [ValueError] if recording
    the directory itself had already raised it. *)
Theorem vanished_entry_and_vanished_directory fuel cwd path rest s m :
  int_maxsize s = Done m s ->
  Py.startswith (canonical cwd path) (base (self s)) = true ->
  (lstat os (canonical cwd path) = Err FileNotFoundError ->
     (bailout (self s) = true ->
        walk (S fuel) cwd (path :: rest) s = Raised FileNotFoundError s)
     /\ (bailout (self s) = false ->
        walk (S fuel) cwd (path :: rest) s = walk (S fuel) cwd rest s))
  /\ (forall sr,
        lstat os (canonical cwd path) = Ok sr ->
        dev (self s) = Some (st_dev sr) ->
        S_ISDIR (st_mode sr) = true ->
        follow (self s) = true ->
        listdir os (absolute cwd path) = Err FileNotFoundError ->
        let name := Py.slice_from (base_len (self s)) (canonical cwd path) in
        (exists s1,
           record_entry m name (canonical cwd path) (relative_path_of cwd path) sr s
             = Done tt s1
           /\ walk (S fuel) cwd (path :: rest) s = Raised AssertionError s1)
        \/ (bailout (self s) = true /\ Dict.mem name (names s) = true
            /\ walk (S fuel) cwd (path :: rest) s
               = Raised (ValueError (Duplicate name)) s)).
Proof.
  intros Hm Hpre. split.
  - intros Hst. split; intros Hb;
      rewrite (walk_cons _ _ _ _ _ _ Hm);
      unfold visit_guarded, try_except;
      rewrite (visit_reaches_stat _ _ _ _ _ Hpre), Hst; cbn;
      unfold bind, gets; rewrite Hb; cbn.
    + reflexivity.
    + apply walk_resume. exact Hm.
  - intros sr Hst Hdev Hdir Hfol Hls name.
    rewrite (walk_cons _ _ _ _ _ _ Hm).
    unfold visit_guarded, try_except.
    rewrite (visit_reaches_stat _ _ _ _ _ Hpre), Hst, Hdev.
    rewrite Z.eqb_refl. cbn [negb].
    destruct (record_entry_outcome m name (canonical cwd path)
                (relative_path_of cwd path) sr s)
      as [[s1 H1] | (Hb & Hmem & H1)].
    + left. exists s1. split; [exact H1 |].
      unfold bind at 1. fold name. rewrite H1.
      assert (Hf : follow (self s1) = true).
      { revert H1. unfold record_entry.
        destruct (too_large m sr).
        - cbn. intros H; inversion H. exact Hfol.
        - unfold bind, new_node, bind, gets.
          destruct (Dict.mem name (names s)); [destruct (bailout (self s)) |]; cbn.
          + discriminate.
          + intros H; inversion H. exact Hfol.
          + destruct (progress (self s) && ((inode (self s) + 1) mod 1000 =? 0))%bool;
              cbn; intros H; inversion H; exact Hfol. }
      unfold descend. rewrite Hdir. unfold bind, gets, try_except, lift.
      rewrite Hf, Hls. cbn. reflexivity.
    + right. repeat split; try assumption.
      unfold bind at 1. fold name. rewrite H1. cbn. reflexivity.
Qed.

End WalkFacts.

(** ** The theorems on the small tree *)


Lemma device_boundary_skips_witness :
  let s := Demo.walking true false PyInt.ArgNone [] [] in
  _init_from_paths Demo.os "/x" 3 None ["m"; "a"] s
  = _init_from_paths Demo.os "/x" 3 None ["a"] (emit (SkipOtherFS "/x/m") s)
  /\ _init_from_paths Demo.os "/x" 3 None ["m"; "a"] s
     = Done tt (emit (SkipOtherFS "/x/m")
                  (Demo.walking true false PyInt.ArgNone
                     [("a", 0)] (Demo.record_of "/x/a" 0))).
Proof.
  intros s. split; [| vm_compute; reflexivity].
  refine (proj1 (device_boundary_skips Demo.os "/x" 2 None "m" ["a"] s None
                   (Demo.entry Demo.dir_mode 2 4096) 1 _ _ _ _ _));
    try reflexivity.
  discriminate.
Defined.

Lemma vanished_entry_and_vanished_directory_witness :
  (let s := Demo.walking true true PyInt.ArgNone [] [] in
   _init_from_paths Demo.os "/x" 3 None ["gone"; "a"] s = Raised FileNotFoundError s)
  /\ (let s := Demo.walking true false PyInt.ArgNone [] [] in
      _init_from_paths Demo.os "/x" 3 None ["gone"; "a"] s
      = _init_from_paths Demo.os "/x" 3 None ["a"] s)
  /\ (let s := Demo.walking true false PyInt.ArgNone [] [] in
      exists s1,
        _init_from_paths Demo.os "/x" 3 None ["d"; "a"] s = Raised AssertionError s1).
Proof.
  split; [| split]; intros s.
  - refine (proj1 (proj1 (vanished_entry_and_vanished_directory
                            Demo.os "/x" 2 None "gone" ["a"] s None _ _) _) _);
      reflexivity.
  - refine (proj2 (proj1 (vanished_entry_and_vanished_directory
                            Demo.os "/x" 2 None "gone" ["a"] s None _ _) _) _);
      reflexivity.
  - destruct (proj2 (vanished_entry_and_vanished_directory
                       Demo.os "/x" 2 None "d" ["a"] s None eq_refl eq_refl)
                (Demo.entry Demo.dir_mode 1 4096)
                eq_refl eq_refl eq_refl eq_refl eq_refl)
      as [(s1 & _ & H) | (Hb & _)].
    + exists s1. exact H.
    + discriminate Hb.
Defined.

Lemma duplicate_name_policy_witness :
  (let s := Demo.walking false true PyInt.ArgNone [("a", 0)] (Demo.record_of "/x/a" 0) in
   _init_from_paths Demo.os "/x" 3 None ["a"; "b"] s
   = Raised (ValueError (Duplicate "a")) s)
  /\ (let s := Demo.walking false false PyInt.ArgNone [("a", 0)] (Demo.record_of "/x/a" 0) in
      _init_from_paths Demo.os "/x" 3 None ["a"; "b"] s
      = _init_from_paths Demo.os "/x" 3 None ["b"]
          (emit (SkipDuplicate "a" "/x/a" "/x" "a") s)).
Proof.
  split; intros s.
  - refine (proj1 (duplicate_name_policy Demo.os "/x" 2 None "a" ["b"] s None
                     (Demo.entry Demo.reg_mode 1 10) _ _ _ _ _ _) _);
      reflexivity.
  - refine (proj1 (proj2 (proj2 (duplicate_name_policy Demo.os "/x" 2 None "a" ["b"] s None
                     (Demo.entry Demo.reg_mode 1 10) _ _ _ _ _ _) _)) _);
      reflexivity.
Defined.

Lemma walker_names_entry_witness :
  (let s := Demo.walking false false PyInt.ArgNone [] [] in
   _init_from_paths Demo.os "/x" 3 None ["../elsewhere"] s
   = Raised AssertionError (emit (NotUnderBase "/elsewhere" "/x") s))
  /\ (let s := Demo.walking false false PyInt.ArgNone [] [] in
      forall s',
        final_state (_init_from_paths Demo.os "/x" 3 None ["b/../a"; "b"] s) = Some s' ->
        Dict.get "a" (names s') = Some 0
        /\ exists so,
             StatObject.__init__ None (Some (Demo.entry Demo.reg_mode 1 10)) (Some 0) = Ok so
             /\ nth_error (stat_objects s') 0 = Some so).
Proof.
  split; intros s.
  - refine (proj1 (walker_names_entry Demo.os "/x" 2 None "../elsewhere" [] s None _ _) _);
      reflexivity.
  - refine (proj2 (walker_names_entry Demo.os "/x" 2 None "b/../a" ["b"] s None _ _) _
              (Demo.entry Demo.reg_mode 1 10) _ _ _ _);
      reflexivity.
Defined.

(** C4, the claim as worded.  [l] is a symbolic link to [a]: the
    symlink-resolved form of [/x/l] is [/x/a], whose remainder under
    the base is [a]; the walker records the entry under [l] and records
    nothing under [a]. *)
Lemma walker_does_not_resolve_symlinks :
  let s := Demo.walking false false PyInt.ArgNone [] [] in
  exists s',
    _init_from_paths Demo.os "/x" 2 None ["l"] s = Done tt s'
    /\ os_realpath Demo.os (abs_path_of "/x" None "l") = Ok "/x/a"
    /\ Py.slice_from (base_len (self s)) "/x/a" = "a"
    /\ Dict.get "a" (names s') = None
    /\ names s' = [("l", 0)].
Proof. eexists. repeat split; vm_compute; reflexivity. Qed.

(** ** The path canonicalizer *)

Lemma add_not_startswith_raises os self path paths c :
  Paths.relative_only self = true ->
  os_realpath os (Py.strip path) = Ok c ->
  Py.startswith c (Paths.base self) = false ->
  Paths.add os self path paths = Raised (ValueError (NotUnder c (Paths.base self))) paths.
Proof.
  intros Hrel Hreal Hpre. unfold Paths.add, bind, try_except.
  rewrite Hreal. cbn. rewrite Hrel, Hpre. reflexivity.
Qed.

Lemma add_startswith_accumulates os self path paths c :
  Paths.relative_only self = true ->
  os_realpath os (Py.strip path) = Ok c ->
  Py.startswith c (Paths.base self) = true ->
  let r := Py.slice_from (String.length (Paths.base self) + 1) c in
  Paths.add os self path paths
  = Done tt (Paths.set_add (if String.eqb r "" then "." else r) paths).
Proof.
  intros Hrel Hreal Hpre r. unfold Paths.add, bind, try_except.
  rewrite Hreal. cbn. rewrite Hrel, Hpre. reflexivity.
Qed.

(** C5, at a path outside the base.  [/xy] resolves to itself and does
    not lie under [/x], yet [add] with [relative_only] raises nothing:
    the test is [startswith] on the strings, and the path is
    accumulated as [.], the name of the base directory itself.  Under
    the base [/], where [FileSystem] sets [base_len] to 1, [add] strips
    two characters and accumulates [/x/a] as [/a]. *)
Theorem add_accepts_sibling_of_base :
  exists self,
    Paths.__init__ Demo.os (Some "/x") true (Some ["/xy"]) [] = Done self ["."]
    /\ Paths.base self = "/x"
    /\ os_realpath Demo.os "/xy" = Ok "/xy"
    /\ lies_under "/x" "/xy" = false
    /\ Paths.add Demo.os self "/xy" [] = Done tt ["."]
    /\ Paths.add Demo.os self "/xyz/w" [] = Done tt ["z/w"]
    /\ lies_under "/" "/x/a" = true
    /\ Paths.add Demo.os {| Paths.base := "/"; Paths.relative_only := true |}
         "/x/a" [] = Done tt ["/a"].
Proof. eexists. repeat split; vm_compute; reflexivity. Qed.

Lemma contains_index c s : Py.contains c s = true -> exists k, Py.index c s = Some k.
Proof.
  induction s as [| a s IH]; cbn; [discriminate |].
  destruct (Ascii.eqb a c); cbn.
  - intros _. exists 0%nat. reflexivity.
  - intros H. destruct (IH H) as [k ->]. exists (S k). reflexivity.
Qed.

(** Whatever the base and the mode: a path with an embedded NUL makes
    [add] raise, and the set is left as it was. *)
Lemma add_embedded_nul_raises os self path paths :
  Py.contains Py.NUL (Py.strip path) = true ->
  Paths.add os self path paths = Raised (ValueError EmbeddedNul) paths.
Proof.
  intros H. unfold Paths.add, bind, try_except, os_realpath.
  rewrite H. cbn. destruct (contains_index _ _ H) as [k ->]. reflexivity.
Qed.

(** C6, at a path with an embedded NUL.  The handler computes the
    truncation [/x/a] and then resolves the untruncated path again, so
    [add] raises [ValueError] and accumulates nothing, where the
    truncated path alone would have accumulated [a]. *)
Theorem add_embedded_nul_not_truncated :
  let self := {| Paths.base := "/x"; Paths.relative_only := true |} in
  let path := "/x/a" ++ String Py.NUL "b" in
  Py.index Py.NUL (Py.strip path) = Some 4%nat
  /\ Py.slice_to 4 (Py.strip path) = "/x/a"
  /\ Paths.add Demo.os self path [] = Raised (ValueError EmbeddedNul) []
  /\ Paths.add Demo.os self "/x/a" [] = Done tt ["a"].
Proof. repeat split; vm_compute; reflexivity. Qed.

(** ** Instances of one process *)

(** C3, at two instances built one after the other.  The second
    instance walks [b] after the first walked [a]: the first
    instance's [names] and [stat_objects] then hold [b] and its record
    too, [b] has the identity [a] already has, and a second instance
    that walks [a] finds the name taken by the first and records
    nothing.  Two [Paths] instances likewise accumulate into one set. *)
Theorem second_instance_shares_class_state :
  let fs := Demo.fs false false PyInt.ArgNone in
  exists s1 s2 s3 p1 p2,
    init_from_paths Demo.os "/x" 2 ["a"] (first_instance fs) = Done tt s1
    /\ names s1 = [("a", 0)]
    /\ stat_objects s1 = Demo.record_of "/x/a" 0
    /\ init_from_paths Demo.os "/x" 2 ["b"] (next_instance fs s1) = Done tt s2
    /\ names (next_instance (self s1) s2) = [("a", 0); ("b", 0)]
    /\ stat_objects (next_instance (self s1) s2)
       = (Demo.record_of "/x/a" 0 ++ Demo.record_of "/x/b" 0)%list
    /\ inode (self s1) = 1 /\ inode (self s2) = 1
    /\ init_from_paths Demo.os "/x" 2 ["a"] (next_instance fs s1) = Done tt s3
    /\ inode (self s3) = 0
    /\ stdout s3 = [SkipDuplicate "a" "/x/a" "/x" "a"]
    /\ Paths.__init__ Demo.os (Some "/x") true (Some ["/x/a"]) [] = Done p1 ["a"]
    /\ Paths.__init__ Demo.os (Some "/x") true (Some ["/x/b"]) ["a"] = Done p2 ["a"; "b"].
Proof. do 5 eexists. repeat split; vm_compute; reflexivity. Qed.

(** C2. Identity density fails for a snapshot the walker builds in a
    second instance of the same process.  After a first instance has
    walked [a], a second instance that walks [b] starts its counter at
    0 again while [names] and [stat_objects] are the class-level
    objects the first walk filled: its snapshot holds the names [a] and
    [b], both with identity 0, two records, and the counter 1.  Two
    names share an identity, the counter is not the number of names,
    and the record at index 0 is not the capture of [b]. *)
Lemma second_instance_not_dense :
  let fs := Demo.fs false false PyInt.ArgNone in
  exists s1 s2,
    init_from_paths Demo.os "/x" 2 ["a"] (first_instance fs) = Done tt s1
    /\ init_from_paths Demo.os "/x" 2 ["b"] (next_instance fs s1) = Done tt s2
    /\ names s2 = [("a", 0); ("b", 0)]
    /\ inode (self s2) = 1
    /\ List.length (stat_objects s2) = 2%nat
    /\ ~ identities_dense Demo.os s2.
Proof.
  do 2 eexists. split; [vm_compute; reflexivity | split; [vm_compute; reflexivity |]].
  split; [reflexivity | split; [reflexivity | split; [reflexivity |]]].
  intros (Hcount & _). vm_compute in Hcount. discriminate.
Qed.

(** ** The snapshot codec *)

(** The record format itself is sound: what [struct.pack] accepts,
    [struct.unpack] gives back. *)

Lemma Z_of_byte_of_Z z : Struct.Z_of_byte (Struct.byte_of_Z z) = z mod 256.
Proof.
  unfold Struct.Z_of_byte, Struct.byte_of_Z.
  rewrite ascii_of_byte_of_ascii.
  assert (0 <= z mod 256 < 256) by (apply Z.mod_pos_bound; lia).
  rewrite N_ascii_embedding by lia.
  apply Z2N.id. lia.
Qed.

Lemma le_value_le_bytes n z :
  Struct.le_value (Struct.le_bytes n z) = z mod 256 ^ Z.of_nat n.
Proof.
  revert z. induction n as [| n IH]; intros z.
  - cbn. rewrite Z.mod_1_r. reflexivity.
  - cbn [Struct.le_bytes Struct.le_value].
    rewrite Z_of_byte_of_Z, IH, Nat2Z.inj_succ, Z.pow_succ_r by lia.
    rewrite Z.rem_mul_r by lia. reflexivity.
Qed.

Lemma unpack_I_pack z bs :
  Struct.pack_I z = Ok bs -> Struct.unpack_I bs = z /\ List.length bs = 4%nat.
Proof.
  unfold Struct.pack_I, Struct.unpack_I.
  destruct ((0 <=? z) && (z <? 2 ^ 32))%bool eqn:E; [| discriminate].
  intros [= <-]. split; [| reflexivity].
  change (Struct.le_value (Struct.le_bytes 4 z) = z).
  rewrite le_value_le_bytes. apply andb_true_iff in E. destruct E as [E1 E2].
  apply Z.leb_le in E1. apply Z.ltb_lt in E2.
  apply Z.mod_small. change (256 ^ Z.of_nat 4) with (2 ^ 32). lia.
Qed.

Lemma unpack_l_pack z bs :
  Struct.pack_l z = Ok bs -> Struct.unpack_l bs = z /\ List.length bs = 8%nat.
Proof.
  unfold Struct.pack_l, Struct.unpack_l.
  destruct ((- 2 ^ 63 <=? z) && (z <? 2 ^ 63))%bool eqn:E; [| discriminate].
  intros [= <-]. split; [| reflexivity].
  change ((let u := Struct.le_value (Struct.le_bytes 8 (z mod 2 ^ 64)) in
           if u <? 2 ^ 63 then u else u - 2 ^ 64) = z). cbv zeta.
  rewrite le_value_le_bytes. apply andb_true_iff in E. destruct E as [E1 E2].
  apply Z.leb_le in E1. apply Z.ltb_lt in E2.
  change (256 ^ Z.of_nat 8) with (2 ^ 64). rewrite Z.mod_mod by lia.
  destruct (Z.ltb_spec (z mod 2 ^ 64) (2 ^ 63)) as [Hlt | Hge].
  - destruct (Z.lt_ge_cases z 0) as [Hn | Hp].
    + rewrite <- (Z.mod_add z 1 (2 ^ 64)) in Hlt by lia.
      rewrite Z.mod_small in Hlt by lia. lia.
    + apply Z.mod_small. lia.
  - destruct (Z.lt_ge_cases z 0) as [Hn | Hp].
    + rewrite <- (Z.mod_add z 1 (2 ^ 64)) by lia.
      rewrite Z.mod_small by lia. lia.
    + rewrite Z.mod_small in Hge by lia. lia.
Qed.

Lemma unpack_pack m i g u mt ct sz bs :
  Struct.pack m i g u mt ct sz = Ok bs ->
  Struct.unpack bs = Ok (m, i, g, u, mt, ct, sz).
Proof.
  unfold Struct.pack.
  destruct (Struct.pack_I m) as [b1 | e] eqn:E1; [| discriminate].
  destruct (Struct.pack_I i) as [b2 | e] eqn:E2; [| discriminate].
  destruct (Struct.pack_I g) as [b3 | e] eqn:E3; [| discriminate].
  destruct (Struct.pack_I u) as [b4 | e] eqn:E4; [| discriminate].
  destruct (Struct.pack_l mt) as [b5 | e] eqn:E5; [| discriminate].
  destruct (Struct.pack_l ct) as [b6 | e] eqn:E6; [| discriminate].
  destruct (Struct.pack_l sz) as [b7 | e] eqn:E7; [| discriminate].
  cbn. intros [= <-].
  destruct (unpack_I_pack _ _ E1) as [V1 L1], (unpack_I_pack _ _ E2) as [V2 L2],
           (unpack_I_pack _ _ E3) as [V3 L3], (unpack_I_pack _ _ E4) as [V4 L4],
           (unpack_l_pack _ _ E5) as [V5 L5], (unpack_l_pack _ _ E6) as [V6 L6],
           (unpack_l_pack _ _ E7) as [V7 L7].
  destruct b1 as [| a0 [| a1 [| a2 [| a3 [| ? ?]]]]]; try discriminate L1.
  destruct b2 as [| c0 [| c1 [| c2 [| c3 [| ? ?]]]]]; try discriminate L2.
  destruct b3 as [| d0 [| d1 [| d2 [| d3 [| ? ?]]]]]; try discriminate L3.
  destruct b4 as [| e0 [| e1 [| e2 [| e3 [| ? ?]]]]]; try discriminate L4.
  destruct b5 as [| f0 [| f1 [| f2 [| f3 [| f4 [| f5 [| f6 [| f7 [| ? ?]]]]]]]]];
    try discriminate L5.
  destruct b6 as [| g0 [| g1 [| g2 [| g3 [| g4 [| g5 [| g6 [| g7 [| ? ?]]]]]]]]];
    try discriminate L6.
  destruct b7 as [| h0 [| h1 [| h2 [| h3 [| h4 [| h5 [| h6 [| h7 [| ? ?]]]]]]]]];
    try discriminate L7.
  unfold Struct.unpack, Struct.field. cbn [List.length app Nat.eqb Struct.calcsize firstn skipn].
  rewrite V1, V2, V3, V4, V5, V6, V7. reflexivity.
Qed.

Lemma unserialize_serialize so b so' :
  StatObject._serialized so = None ->
  StatObject.serialize so = Ok (b, so') ->
  StatObject.unserialize StatObject.blank (StatObject.PyBytes b)
  = Ok {| StatObject.mode := StatObject.mode so;
          StatObject.inode := StatObject.inode so;
          StatObject.gid := StatObject.gid so;
          StatObject.uid := StatObject.uid so;
          StatObject.mtime := StatObject.mtime so;
          StatObject.ctime := StatObject.ctime so;
          StatObject.size := StatObject.size so;
          StatObject._serialized := None |}.
Proof.
  intros Hc. unfold StatObject.serialize. rewrite Hc.
  destruct (StatObject.mode so) as [m |]; [| discriminate].
  destruct (StatObject.inode so) as [i |]; [| discriminate].
  destruct (StatObject.gid so) as [g |]; [| discriminate].
  destruct (StatObject.uid so) as [u |]; [| discriminate].
  destruct (StatObject.mtime so) as [mt |]; [| discriminate].
  destruct (StatObject.ctime so) as [ct |]; [| discriminate].
  destruct (StatObject.size so) as [sz |]; [| discriminate].
  destruct (Struct.pack m i g u mt ct sz) as [bs | e] eqn:E; [| discriminate].
  intros [= <- _]. unfold StatObject.unserialize.
  rewrite (unpack_pack _ _ _ _ _ _ _ _ E). reflexivity.
Qed.

(** [import_fs] returns normally only when the count line is not
    positive, and then it has placed no record: with a positive count
    the first [StatObject(data=...)] raises. *)
Lemma import_fs_loads_no_record os s s' :
  import_fs os s = Done tt s' ->
  inode (self s') <= 0 /\ stat_objects s' = stat_objects s.
Proof.
  unfold import_fs, bind, gets, lift, modify. cbn.
  destruct (read_text os (name (self s))) as [text | e]; cbn; [| discriminate].
  destruct (Py.readline text) as [l rest].
  destruct (PyInt.of_str l) as [n | e]; cbn; [| discriminate].
  destruct (Z.to_nat n) as [| k] eqn:En.
  - cbn. intros H. inversion H. cbn. split; [lia | reflexivity].
  - destruct (import_names (S k) rest (set_inode n s)) as [sos s1 | e s1 |];
      [| discriminate | discriminate].
    cbn. discriminate.
Qed.

(** C1, at a snapshot of one entry.  Walking [q] and exporting writes
    the count, the name with its identity, and the 40 bytes of the
    record; importing that file in a fresh process sets the counter and
    the name and then raises [TypeError] at the first record, so no
    record sequence comes back. *)
Theorem roundtrip_import_raises :
  let fs := Demo.fs false false PyInt.ArgNone in
  exists s1 written text s2,
    construct Demo.os "/x" 2 true ["q"] (first_instance fs) = Done (Some written) s1
    /\ names s1 = [("q", 0)]
    /\ inode (self s1) = 1
    /\ List.length (stat_objects s1) = 1%nat
    /\ List.length written = 46%nat
    /\ Py.ascii_text written = Some text
    /\ construct (Demo.with_file "snap" text) "/x" 2 false [] (first_instance fs)
       = Raised TypeError s2
    /\ names s2 = [("q", 0)]
    /\ stat_objects s2 = [].
Proof. do 4 eexists. repeat split; vm_compute; reflexivity. Qed.

(** * Further properties of the code *)

(** ** Records and their bytes *)

Lemma pack_length m i g u mt ct sz bs :
  Struct.pack m i g u mt ct sz = Ok bs -> List.length bs = Struct.calcsize.
Proof.
  unfold Struct.pack.
  destruct (Struct.pack_I m) as [b1 | e] eqn:E1; [| discriminate].
  destruct (Struct.pack_I i) as [b2 | e] eqn:E2; [| discriminate].
  destruct (Struct.pack_I g) as [b3 | e] eqn:E3; [| discriminate].
  destruct (Struct.pack_I u) as [b4 | e] eqn:E4; [| discriminate].
  destruct (Struct.pack_l mt) as [b5 | e] eqn:E5; [| discriminate].
  destruct (Struct.pack_l ct) as [b6 | e] eqn:E6; [| discriminate].
  destruct (Struct.pack_l sz) as [b7 | e] eqn:E7; [| discriminate].
  cbn. intros [= <-]. repeat rewrite length_app.
  rewrite (proj2 (unpack_I_pack _ _ E1)), (proj2 (unpack_I_pack _ _ E2)),
          (proj2 (unpack_I_pack _ _ E3)), (proj2 (unpack_I_pack _ _ E4)),
          (proj2 (unpack_l_pack _ _ E5)), (proj2 (unpack_l_pack _ _ E6)),
          (proj2 (unpack_l_pack _ _ E7)).
  reflexivity.
Qed.

Lemma serialize_fresh so b so' :
  StatObject._serialized so = None ->
  StatObject.serialize so = Ok (b, so') ->
  exists m i g u mt ct sz,
    StatObject.mode so = Some m /\ StatObject.inode so = Some i
    /\ StatObject.gid so = Some g /\ StatObject.uid so = Some u
    /\ StatObject.mtime so = Some mt /\ StatObject.ctime so = Some ct
    /\ StatObject.size so = Some sz
    /\ Struct.pack m i g u mt ct sz = Ok b
    /\ so' = {| StatObject.mode := Some m; StatObject.inode := Some i;
                StatObject.gid := Some g; StatObject.uid := Some u;
                StatObject.mtime := Some mt; StatObject.ctime := Some ct;
                StatObject.size := Some sz; StatObject._serialized := Some b |}.
Proof.
  intros Hc. unfold StatObject.serialize. rewrite Hc.
  destruct (StatObject.mode so) as [m |]; [| discriminate].
  destruct (StatObject.inode so) as [i |]; [| discriminate].
  destruct (StatObject.gid so) as [g |]; [| discriminate].
  destruct (StatObject.uid so) as [u |]; [| discriminate].
  destruct (StatObject.mtime so) as [mt |]; [| discriminate].
  destruct (StatObject.ctime so) as [ct |]; [| discriminate].
  destruct (StatObject.size so) as [sz |]; [| discriminate].
  destruct (Struct.pack m i g u mt ct sz) as [bs | e] eqn:E; [| discriminate].
  intros [= <- <-]. exists m, i, g, u, mt, ct, sz. repeat split; assumption.
Qed.

Lemma serialize_fresh_length so b so' :
  StatObject._serialized so = None ->
  StatObject.serialize so = Ok (b, so') ->
  List.length b = 40%nat.
Proof.
  intros Hc Hs.
  destruct (serialize_fresh _ _ _ Hc Hs)
    as (m & i & g & u & mt & ct & sz & _ & _ & _ & _ & _ & _ & _ & Hp & _).
  apply (pack_length _ _ _ _ _ _ _ _ Hp).
Qed.

(** X1. A record serialized for the first time gives exactly 40 bytes,
    and [unserialize] on those bytes gives back each of its seven
    fields. *)
Theorem record_bytes_round_trip so b so' :
  StatObject._serialized so = None ->
  StatObject.serialize so = Ok (b, so') ->
  List.length b = 40%nat
  /\ exists back,
       StatObject.unserialize StatObject.blank (StatObject.PyBytes b) = Ok back
       /\ StatObject.mode back = StatObject.mode so
       /\ StatObject.inode back = StatObject.inode so
       /\ StatObject.gid back = StatObject.gid so
       /\ StatObject.uid back = StatObject.uid so
       /\ StatObject.mtime back = StatObject.mtime so
       /\ StatObject.ctime back = StatObject.ctime so
       /\ StatObject.size back = StatObject.size so.
Proof.
  intros Hc Hs. split.
  - apply (serialize_fresh_length _ _ _ Hc Hs).
  - eexists. split; [apply (unserialize_serialize _ _ _ Hc Hs) |].
    repeat split; reflexivity.
Qed.

(** X2. [serialize] is memoized: once it has succeeded, calling it again
    on the object it left returns the same bytes and leaves the object
    as it is, and the seven fields are never touched. *)
Theorem serialize_memoized so b so' :
  StatObject.serialize so = Ok (b, so') ->
  StatObject.serialize so' = Ok (b, so')
  /\ StatObject._serialized so' = Some b
  /\ StatObject.mode so' = StatObject.mode so
  /\ StatObject.inode so' = StatObject.inode so
  /\ StatObject.gid so' = StatObject.gid so
  /\ StatObject.uid so' = StatObject.uid so
  /\ StatObject.mtime so' = StatObject.mtime so
  /\ StatObject.ctime so' = StatObject.ctime so
  /\ StatObject.size so' = StatObject.size so.
Proof.
  unfold StatObject.serialize at 1.
  destruct (StatObject._serialized so) as [c |] eqn:Hc.
  - intros [= <- <-]. unfold StatObject.serialize. rewrite Hc.
    repeat split; reflexivity.
  - destruct (StatObject.mode so) as [m |]; [| discriminate].
    destruct (StatObject.inode so) as [i |]; [| discriminate].
    destruct (StatObject.gid so) as [g |]; [| discriminate].
    destruct (StatObject.uid so) as [u |]; [| discriminate].
    destruct (StatObject.mtime so) as [mt |]; [| discriminate].
    destruct (StatObject.ctime so) as [ct |]; [| discriminate].
    destruct (StatObject.size so) as [sz |]; [| discriminate].
    destruct (Struct.pack m i g u mt ct sz) as [bs | e]; [| discriminate].
    intros [= <- <-]. repeat split; reflexivity.
Qed.

Lemma pack_I_ok z : Struct.in_I z <-> exists b, Struct.pack_I z = Ok b.
Proof.
  unfold Struct.in_I, Struct.pack_I.
  destruct (Z.leb_spec 0 z) as [H1 | H1], (Z.ltb_spec z (2 ^ 32)) as [H2 | H2];
    cbn; split;
    try (intros; eexists; reflexivity); try lia;
    intros [b Hb]; discriminate.
Qed.

Lemma pack_l_ok z : Struct.in_l z <-> exists b, Struct.pack_l z = Ok b.
Proof.
  unfold Struct.in_l, Struct.pack_l.
  destruct (Z.leb_spec (- 2 ^ 63) z) as [H1 | H1], (Z.ltb_spec z (2 ^ 63)) as [H2 | H2];
    cbn; split;
    try (intros; eexists; reflexivity); try lia;
    intros [b Hb]; discriminate.
Qed.

Lemma pack_I_err z e : Struct.pack_I z = Err e -> e = StructError.
Proof. unfold Struct.pack_I. destruct (_ && _)%bool; [discriminate | congruence]. Qed.

Lemma pack_l_err z e : Struct.pack_l z = Err e -> e = StructError.
Proof. unfold Struct.pack_l. destruct (_ && _)%bool; [discriminate | congruence]. Qed.

Lemma pack_ok_iff m i g u mt ct sz :
  (exists b, Struct.pack m i g u mt ct sz = Ok b)
  <-> (Struct.in_I m /\ Struct.in_I i /\ Struct.in_I g /\ Struct.in_I u
       /\ Struct.in_l mt /\ Struct.in_l ct /\ Struct.in_l sz).
Proof.
  unfold Struct.pack. split.
  - intros [b H].
    destruct (Struct.pack_I m) as [b1 | e] eqn:E1; [| discriminate].
    destruct (Struct.pack_I i) as [b2 | e] eqn:E2; [| discriminate].
    destruct (Struct.pack_I g) as [b3 | e] eqn:E3; [| discriminate].
    destruct (Struct.pack_I u) as [b4 | e] eqn:E4; [| discriminate].
    destruct (Struct.pack_l mt) as [b5 | e] eqn:E5; [| discriminate].
    destruct (Struct.pack_l ct) as [b6 | e] eqn:E6; [| discriminate].
    destruct (Struct.pack_l sz) as [b7 | e] eqn:E7; [| discriminate].
    repeat split;
      first [apply pack_I_ok | apply pack_l_ok]; eexists; eassumption.
  - intros (H1 & H2 & H3 & H4 & H5 & H6 & H7).
    apply pack_I_ok in H1, H2, H3, H4. apply pack_l_ok in H5, H6, H7.
    destruct H1 as [b1 ->], H2 as [b2 ->], H3 as [b3 ->], H4 as [b4 ->],
             H5 as [b5 ->], H6 as [b6 ->], H7 as [b7 ->].
    cbn. eexists. reflexivity.
Qed.

Lemma pack_err m i g u mt ct sz e :
  Struct.pack m i g u mt ct sz = Err e -> e = StructError.
Proof.
  unfold Struct.pack.
  destruct (Struct.pack_I m) as [b1 | e1] eqn:E1;
    [| cbn; intros [= <-]; apply (pack_I_err _ _ E1)].
  destruct (Struct.pack_I i) as [b2 | e1] eqn:E2;
    [| cbn; intros [= <-]; apply (pack_I_err _ _ E2)].
  destruct (Struct.pack_I g) as [b3 | e1] eqn:E3;
    [| cbn; intros [= <-]; apply (pack_I_err _ _ E3)].
  destruct (Struct.pack_I u) as [b4 | e1] eqn:E4;
    [| cbn; intros [= <-]; apply (pack_I_err _ _ E4)].
  destruct (Struct.pack_l mt) as [b5 | e1] eqn:E5;
    [| cbn; intros [= <-]; apply (pack_l_err _ _ E5)].
  destruct (Struct.pack_l ct) as [b6 | e1] eqn:E6;
    [| cbn; intros [= <-]; apply (pack_l_err _ _ E6)].
  destruct (Struct.pack_l sz) as [b7 | e1] eqn:E7;
    [| cbn; intros [= <-]; apply (pack_l_err _ _ E7)].
  cbn. discriminate.
Qed.

(** X3. A record with all seven fields set serializes exactly when
    [mode], [inode], [gid] and [uid] fit an unsigned 32-bit field and
    [mtime], [ctime] and [size] a signed 64-bit one; otherwise
    [serialize] raises [struct.error] and nothing else. *)
Theorem serialize_ok_iff_in_range m i g u mt ct sz :
  let so := {| StatObject.mode := Some m; StatObject.inode := Some i;
               StatObject.gid := Some g; StatObject.uid := Some u;
               StatObject.mtime := Some mt; StatObject.ctime := Some ct;
               StatObject.size := Some sz; StatObject._serialized := None |} in
  ((exists b so', StatObject.serialize so = Ok (b, so'))
   <-> (Struct.in_I m /\ Struct.in_I i /\ Struct.in_I g /\ Struct.in_I u
        /\ Struct.in_l mt /\ Struct.in_l ct /\ Struct.in_l sz))
  /\ (forall e, StatObject.serialize so = Err e -> e = StructError).
Proof.
  cbn zeta. unfold StatObject.serialize. cbn. split; [split |].
  - intros (b & so' & H). apply pack_ok_iff.
    destruct (Struct.pack m i g u mt ct sz) as [bs | e]; [| discriminate].
    eexists. reflexivity.
  - intros H. apply pack_ok_iff in H. destruct H as [b ->].
    do 2 eexists. reflexivity.
  - intros e. destruct (Struct.pack m i g u mt ct sz) as [bs | e1] eqn:E;
      [discriminate |].
    intros [= <-]. apply (pack_err _ _ _ _ _ _ _ _ E).
Qed.

(** ** Differences of records *)

Lemma Z_of_byte_range b : 0 <= Struct.Z_of_byte b < 256.
Proof.
  unfold Struct.Z_of_byte.
  pose proof (N_ascii_bounded (ascii_of_byte b)). lia.
Qed.

Lemma byte_of_Z_of_byte b : Struct.byte_of_Z (Struct.Z_of_byte b) = b.
Proof.
  unfold Struct.byte_of_Z.
  rewrite Z.mod_small by apply Z_of_byte_range.
  unfold Struct.Z_of_byte. rewrite N2Z.id, ascii_N_embedding.
  apply byte_of_ascii_of_byte.
Qed.

Lemma log2_byte x : 0 <= x < 256 -> Z.log2 x < 8.
Proof.
  intros H. destruct (Z.eq_dec x 0) as [-> | Hx]; [cbn; lia |].
  apply Z.log2_lt_pow2; lia.
Qed.

Lemma lxor_byte_range x y :
  0 <= x < 256 -> 0 <= y < 256 -> 0 <= Z.lxor x y < 256.
Proof.
  intros Hx Hy.
  assert (H0 : 0 <= Z.lxor x y) by (apply Z.lxor_nonneg; lia).
  split; [exact H0 |].
  destruct (Z.eq_dec (Z.lxor x y) 0) as [-> | Hne]; [lia |].
  change 256 with (2 ^ 8). apply Z.log2_lt_pow2; [lia |].
  pose proof (Z.log2_lxor x y ltac:(lia) ltac:(lia)).
  pose proof (log2_byte x Hx). pose proof (log2_byte y Hy). lia.
Qed.

Lemma xor_byte_self a : Struct.xor_byte a a = Byte.x00.
Proof. unfold Struct.xor_byte. rewrite Z.lxor_nilpotent. reflexivity. Qed.

Lemma xor_byte_comm a b : Struct.xor_byte a b = Struct.xor_byte b a.
Proof. unfold Struct.xor_byte. rewrite Z.lxor_comm. reflexivity. Qed.

Lemma xor_byte_cancel a b : Struct.xor_byte (Struct.xor_byte a b) b = a.
Proof.
  unfold Struct.xor_byte at 1. unfold Struct.xor_byte at 1.
  rewrite Z_of_byte_of_Z.
  rewrite Z.mod_small
    by (apply lxor_byte_range; apply Z_of_byte_range).
  rewrite Z.lxor_assoc, Z.lxor_nilpotent, Z.lxor_0_r.
  apply byte_of_Z_of_byte.
Qed.

Lemma xor_bytes_self x : Struct.xor_bytes x x = repeat Byte.x00 (List.length x).
Proof.
  unfold Struct.xor_bytes. induction x as [| a x IH]; cbn; [reflexivity |].
  rewrite xor_byte_self, IH. reflexivity.
Qed.

Lemma xor_bytes_length x y :
  List.length x = List.length y -> List.length (Struct.xor_bytes x y) = List.length x.
Proof.
  unfold Struct.xor_bytes. intros H.
  rewrite length_map, length_combine. lia.
Qed.

Lemma xor_bytes_cancel x y :
  List.length x = List.length y ->
  Struct.xor_bytes (Struct.xor_bytes x y) y = x.
Proof.
  unfold Struct.xor_bytes. revert y.
  induction x as [| a x IH]; intros [| b y]; cbn; try discriminate; [reflexivity |].
  intros [= H]. rewrite xor_byte_cancel, (IH y H). reflexivity.
Qed.

Lemma xor_bytes_comm x y : Struct.xor_bytes x y = Struct.xor_bytes y x.
Proof.
  unfold Struct.xor_bytes. revert y.
  induction x as [| a x IH]; intros [| b y]; cbn; try reflexivity.
  rewrite xor_byte_comm, (IH y). reflexivity.
Qed.

(** X4. The difference of a record with itself is all zero bytes, as
    many as the record has: 40 for a record serialized for the first
    time. *)
Theorem delta_with_itself so b so' :
  StatObject.serialize so = Ok (b, so') ->
  StatObject.delta (so, Some so)
  = Done (repeat Byte.x00 (List.length b)) (so', Some so').
Proof.
  intros H. unfold StatObject.delta. rewrite H, xor_bytes_self. reflexivity.
Qed.

(** X5. The difference of two records is as long as one record, and
    applying it to the bytes of either record gives the bytes of the
    other: the difference together with one capture determines the
    other capture. *)
Theorem delta_recovers a b d st :
  StatObject._serialized a = None ->
  StatObject._serialized b = None ->
  StatObject.delta (a, Some b) = Done d st ->
  exists ba a' bb b',
    StatObject.serialize a = Ok (ba, a')
    /\ StatObject.serialize b = Ok (bb, b')
    /\ st = (a', Some b')
    /\ List.length d = 40%nat
    /\ Struct.xor_bytes d bb = ba
    /\ Struct.xor_bytes d ba = bb.
Proof.
  intros Ha Hb. unfold StatObject.delta.
  destruct (StatObject.serialize a) as [[ba a'] | e] eqn:Ea; [| discriminate].
  destruct (StatObject.serialize b) as [[bb b'] | e] eqn:Eb; [| discriminate].
  intros [= <- <-]. exists ba, a', bb, b'.
  pose proof (serialize_fresh_length _ _ _ Ha Ea) as La.
  pose proof (serialize_fresh_length _ _ _ Hb Eb) as Lb.
  repeat split.
  - rewrite xor_bytes_length; congruence.
  - apply xor_bytes_cancel. congruence.
  - rewrite (xor_bytes_comm ba bb). apply xor_bytes_cancel. congruence.
Qed.

(** ** Looking names and identities up *)

(** X6. A name that [new_node] has just given an identity is found by
    [name_2_inode], with or without [accept_absolute], under that
    identity; the identity is the counter before the call, and the
    counter has moved on by one. *)
Theorem new_node_then_lookup name s i s' accept_absolute :
  new_node name s = Done (Some i) s' ->
  name_2_inode name accept_absolute s' = Ok (Some i)
  /\ i = inode (self s)
  /\ inode (self s') = i + 1.
Proof.
  unfold new_node, bind, gets.
  destruct (Dict.mem name (names s)) eqn:Hmem.
  - destruct (bailout (self s)); discriminate.
  - cbn.
    destruct (progress (self s) && ((inode (self s) + 1) mod 1000 =? 0))%bool;
      cbn; intros [= <- <-]; unfold name_2_inode; cbn;
      rewrite (Dict_get_set_same _ _ _ Hmem); repeat split; reflexivity.
Qed.

Lemma new_node_then_lookup_witness :
  let s := Demo.walking true false PyInt.ArgNone [("a", 0)] (Demo.record_of "/x/a" 0) in
  exists s',
    new_node "b" s = Done (Some 1) s'
    /\ name_2_inode "b" false s' = Ok (Some 1)
    /\ 1 = inode (self s)
    /\ inode (self s') = 1 + 1.
Proof.
  intros s. eexists. split; [reflexivity |].
  apply (new_node_then_lookup "b" s 1 _ false). reflexivity.
Defined.

Lemma prefix_app_self a b : String.prefix a (a ++ b) = true.
Proof.
  induction a as [| c a IH]; cbn; [destruct b; reflexivity |].
  destruct (ascii_dec c c); [exact IH | congruence].
Qed.

(** X7. With [accept_absolute], the absolute form of a name (the base,
    a separator, the name; for the base [/] the separator alone) is
    answered like the name itself, provided the absolute form is not a
    key of its own and [base_len] is what the constructor computes. *)
Theorem name_2_inode_absolute name s :
  base_len (self s)
  = (if String.eqb (base (self s)) "/" then 1 else String.length (base (self s)) + 1)%nat ->
  let absolute :=
    if String.eqb (base (self s)) "/" then "/" ++ name
    else base (self s) ++ "/" ++ name in
  Dict.get absolute (names s) = None ->
  name_2_inode absolute true s = name_2_inode name false s.
Proof.
  intros Hlen absolute Habs. unfold name_2_inode. rewrite Habs.
  assert (Hpre : Py.startswith absolute (base (self s)) = true).
  { unfold Py.startswith, absolute.
    destruct (String.eqb_spec (base (self s)) "/") as [-> | _].
    - apply (prefix_app_self "/" name).
    - apply prefix_app_self. }
  rewrite Hpre.
  assert (Hrel : Py.slice_from (base_len (self s)) absolute = name).
  { rewrite Hlen. unfold absolute.
    destruct (String.eqb (base (self s)) "/"); [reflexivity | apply slice_from_sep]. }
  rewrite Hrel. reflexivity.
Qed.

Lemma name_2_inode_absolute_witness :
  let s := Demo.walking true false PyInt.ArgNone [("b/c", 0)] (Demo.record_of "/x/b/c" 0) in
  name_2_inode "/x/b/c" true s = name_2_inode "b/c" false s
  /\ name_2_inode "b/c" false s = Ok (Some 0).
Proof.
  intros s. split; [| reflexivity].
  apply (name_2_inode_absolute "b/c" s); reflexivity.
Defined.

(** X8. [name_2_inode] raises only with [accept_absolute], and then
    exactly for a name that is no key and does not start with the base
    string; a name under the base that was never recorded is answered
    [None], not an error. *)
Theorem name_2_inode_raises_iff name accept_absolute s e :
  name_2_inode name accept_absolute s = Err e
  <-> (accept_absolute = true
       /\ Dict.get name (names s) = None
       /\ Py.startswith name (base (self s)) = false
       /\ e = ValueError (NotUnder name (base (self s)))).
Proof.
  unfold name_2_inode.
  destruct (Dict.get name (names s)) as [i |].
  - split; [discriminate | intros (_ & H & _); discriminate].
  - destruct accept_absolute.
    + destruct (Py.startswith name (base (self s))).
      * destruct (Dict.get _ (names s)); split;
          try discriminate; intros (_ & _ & H & _); discriminate.
      * split.
        -- intros [= <-]. repeat split; reflexivity.
        -- intros (_ & _ & _ & ->). reflexivity.
    + split; [discriminate | intros (H & _); discriminate].
Qed.

Lemma py_index_ok_iff A (l : list A) i :
  (exists x, py_index l i = Ok x)
  <-> - Z.of_nat (List.length l) <= i < Z.of_nat (List.length l).
Proof.
  unfold py_index. cbv zeta.
  destruct (Z.ltb_spec i 0) as [Hneg | Hpos].
  - destruct (Z.leb_spec 0 (Z.of_nat (List.length l) + i)) as [H1 | H1];
      destruct (Z.ltb_spec (Z.of_nat (List.length l) + i) (Z.of_nat (List.length l)))
        as [H2 | H2]; cbn; try (split; [intros [x Hx]; discriminate | lia]).
    destruct (nth_error l (Z.to_nat (Z.of_nat (List.length l) + i))) as [x |] eqn:E.
    + split; [lia | intros _; exists x; reflexivity].
    + apply nth_error_None in E. lia.
  - destruct (Z.leb_spec 0 i) as [H1 | H1];
      destruct (Z.ltb_spec i (Z.of_nat (List.length l))) as [H2 | H2];
      cbn; try (split; [intros [x Hx]; discriminate | lia]).
    destruct (nth_error l (Z.to_nat i)) as [x |] eqn:E.
    + split; [lia | intros _; exists x; reflexivity].
    + apply nth_error_None in E. lia.
Qed.

(** X9. [inode_2_stat_object] answers exactly the indices from
    [-count] to [count - 1], a negative index counting from the end of
    the record list, anything else is an [IndexError]; without an
    argument it answers index 0. *)
Theorem inode_2_stat_object_bounds s i :
  let count := Z.of_nat (List.length (stat_objects s)) in
  ((exists so, inode_2_stat_object (Some i) s = Ok so) <-> - count <= i < count)
  /\ (forall e, inode_2_stat_object (Some i) s = Err e -> e = IndexError)
  /\ (0 <= i < count ->
      inode_2_stat_object (Some (i - count)) s = inode_2_stat_object (Some i) s)
  /\ inode_2_stat_object None s = inode_2_stat_object (Some 0) s.
Proof.
  cbv zeta. unfold inode_2_stat_object.
  split; [apply py_index_ok_iff | split; [| split]].
  - intros e. unfold py_index. cbv zeta.
    destruct (_ && _)%bool; [| congruence].
    destruct (nth_error _ _); [discriminate | congruence].
  - intros H. unfold py_index. cbv zeta.
    destruct (Z.ltb_spec (i - Z.of_nat (List.length (stat_objects s))) 0); [| lia].
    destruct (Z.ltb_spec i 0); [lia |].
    replace (Z.of_nat (List.length (stat_objects s))
             + (i - Z.of_nat (List.length (stat_objects s)))) with i by lia.
    reflexivity.
  - reflexivity.
Qed.

(** ** More on the walk *)

Section WalkMore.

Variable os : OS.
Variable module_base : string.

Abbreviation walk' := (_init_from_paths os module_base).
Abbreviation canonical' := (canonical_path_of os module_base).
Abbreviation absolute' := (abs_path_of module_base).

Lemma int_maxsize_maxsize s s' m :
  maxsize (self s') = maxsize (self s) ->
  int_maxsize s = Done m s -> int_maxsize s' = Done m s'.
Proof.
  unfold int_maxsize, bind, gets. intros E. rewrite E.
  destruct (PyInt.int (maxsize (self s))) as [z | e]; cbn.
  - intros H. inversion H. reflexivity.
  - destruct e; cbn; intros H; inversion H; reflexivity.
Qed.

Lemma int_maxsize_reach s s' m :
  FileSystem.reach os s s' ->
  int_maxsize s = Done m s -> int_maxsize s' = Done m s'.
Proof.
  intros R. apply int_maxsize_maxsize.
  apply (reach_extends os _ _ R).
Qed.

Lemma too_large_not_dir m sr : too_large m sr = true -> S_ISDIR (st_mode sr) = false.
Proof.
  unfold too_large, S_ISREG, S_ISDIR. destruct m as [z |]; [| discriminate].
  intros H. apply andb_true_iff in H. destruct H as [H _].
  apply Z.eqb_eq in H. rewrite H. reflexivity.
Qed.

(** X10. Size filter.  A regular file larger than [maxsize] adds no
    node: the walk prints the warning and goes on with the next path
    from an otherwise unchanged state.  Only regular files are ever
    filtered, and none is when [maxsize] is [None]. *)
Theorem oversize_file_skipped fuel cwd path rest s m sr :
  int_maxsize s = Done m s ->
  Py.startswith (canonical' cwd path) (base (self s)) = true ->
  lstat os (canonical' cwd path) = Ok sr ->
  dev (self s) = Some (st_dev sr) ->
  too_large m sr = true ->
  let s' := emit (SkipTooLarge (canonical' cwd path) (st_size sr)) s in
  walk' (S fuel) cwd (path :: rest) s = walk' (S fuel) cwd rest s'
  /\ names s' = names s
  /\ stat_objects s' = stat_objects s
  /\ inode (self s') = inode (self s)
  /\ S_ISREG (st_mode sr) = true
  /\ exists z, m = Some z /\ z < st_size sr.
Proof.
  intros Hm Hpre Hst Hdev Htl s'. split; [| repeat split].
  - assert (Hrec : record_entry m (Py.slice_from (base_len (self s)) (canonical' cwd path))
                     (canonical' cwd path) (relative_path_of cwd path) sr s
                   = Done tt s').
    { unfold record_entry. rewrite Htl. reflexivity. }
    rewrite (walk_cons_after_record os module_base fuel cwd path rest s m sr _
               Hm Hpre Hst Hdev Hrec).
    unfold bind at 1. unfold try_except, descend.
    rewrite (too_large_not_dir _ _ Htl).
    apply walk_resume. apply (int_maxsize_self s); [reflexivity | exact Hm].
  - unfold too_large in Htl. destruct m; [| discriminate].
    apply andb_true_iff in Htl. apply Htl.
  - unfold too_large in Htl. destruct m as [z |]; [| discriminate].
    exists z. split; [reflexivity |].
    apply andb_true_iff in Htl. apply Z.ltb_lt. apply Htl.
Qed.

(** The walk of an entry that is a directory to descend into and whose
    listing succeeded. *)
Lemma walk_cons_descend fuel cwd path rest s m sr s1 children :
  int_maxsize s = Done m s ->
  Py.startswith (canonical' cwd path) (base (self s)) = true ->
  lstat os (canonical' cwd path) = Ok sr ->
  dev (self s) = Some (st_dev sr) ->
  record_entry m (Py.slice_from (base_len (self s)) (canonical' cwd path))
    (canonical' cwd path) (relative_path_of cwd path) sr s = Done tt s1 ->
  S_ISDIR (st_mode sr) = true ->
  follow (self s) = true ->
  listdir os (absolute' cwd path) = Ok children ->
  walk' (S fuel) cwd (path :: rest) s
  = match walk' fuel (Some (relative_path_of cwd path)) children s1 with
    | Done _ s2 => walk' (S fuel) cwd rest s2
    | Raised e s2 =>
        if is_FileNotFoundError e then Raised AssertionError s2
        else if is_PermissionError e then
          walk' (S fuel) cwd rest (emit (SkipPermission (canonical' cwd path)) s2)
        else Raised e s2
    | OutOfFuel => OutOfFuel
    end.
Proof.
  intros Hm Hpre Hst Hdev Hrec Hdir Hfol Hls.
  assert (R1 : FileSystem.reach os s s1).
  { eapply record_entry_reach; [exact Hpre | exact Hst |]. rewrite Hrec. reflexivity. }
  pose proof (reach_extends os _ _ R1) as (_ & _ & Hf & _).
  rewrite (walk_cons_after_record os module_base fuel cwd path rest s m sr _
             Hm Hpre Hst Hdev Hrec).
  unfold bind at 1. unfold try_except at 1. unfold descend. rewrite Hdir.
  unfold bind at 1. unfold gets at 1. rewrite Hf, Hfol.
  unfold try_except, bind, lift. rewrite Hls. cbn [ret].
  destruct (walk' fuel (Some (relative_path_of cwd path)) children s1)
    as [[] s2 | e s2 |] eqn:E; [| | reflexivity].
  - apply walk_resume. apply (int_maxsize_reach s); [| exact Hm].
    eapply reach_trans; [exact R1 |].
    apply (sound_walk os module_base fuel (Some (relative_path_of cwd path)) children s1 s2).
    rewrite E. reflexivity.
  - assert (R2 : FileSystem.reach os s s2).
    { eapply reach_trans; [exact R1 |].
      apply (sound_walk os module_base fuel (Some (relative_path_of cwd path)) children s1 s2).
    rewrite E. reflexivity. }
    destruct e; cbn; try reflexivity.
    apply walk_resume. apply (int_maxsize_reach s); [| exact Hm].
    eapply reach_trans; [exact R2 | apply reach_emit].
Qed.

(** X11. Descending into a directory.  Once a directory entry is
    recorded (or skipped as a duplicate) and listed, the walk of
    [path :: rest] is the walk of its children from that state,
    followed by the walk of [rest]; what the children's walk raises is
    translated at the directory: [FileNotFoundError] becomes
    [AssertionError], [PermissionError] ends the directory with a
    warning and the walk goes on with [rest], anything else
    propagates. *)
Theorem directory_walk_composes fuel cwd path rest s m sr s1 children :
  int_maxsize s = Done m s ->
  Py.startswith (canonical' cwd path) (base (self s)) = true ->
  lstat os (canonical' cwd path) = Ok sr ->
  dev (self s) = Some (st_dev sr) ->
  record_entry m (Py.slice_from (base_len (self s)) (canonical' cwd path))
    (canonical' cwd path) (relative_path_of cwd path) sr s = Done tt s1 ->
  S_ISDIR (st_mode sr) = true ->
  follow (self s) = true ->
  listdir os (absolute' cwd path) = Ok children ->
  walk' (S fuel) cwd (path :: rest) s
  = match walk' fuel (Some (relative_path_of cwd path)) children s1 with
    | Done _ s2 => walk' (S fuel) cwd rest s2
    | Raised e s2 =>
        if is_FileNotFoundError e then Raised AssertionError s2
        else if is_PermissionError e then
          walk' (S fuel) cwd rest (emit (SkipPermission (canonical' cwd path)) s2)
        else Raised e s2
    | OutOfFuel => OutOfFuel
    end.
Proof. apply walk_cons_descend. Qed.

(** X12. A directory that cannot be listed.  When [os.listdir] raises
    [PermissionError] the directory itself stays recorded, a warning is
    printed and the walk goes on with the next path; any other error of
    the listing than [FileNotFoundError] and [PermissionError] ends the
    walk with that error. *)
Theorem unlistable_directory fuel cwd path rest s m sr s1 e :
  int_maxsize s = Done m s ->
  Py.startswith (canonical' cwd path) (base (self s)) = true ->
  lstat os (canonical' cwd path) = Ok sr ->
  dev (self s) = Some (st_dev sr) ->
  record_entry m (Py.slice_from (base_len (self s)) (canonical' cwd path))
    (canonical' cwd path) (relative_path_of cwd path) sr s = Done tt s1 ->
  S_ISDIR (st_mode sr) = true ->
  follow (self s) = true ->
  listdir os (absolute' cwd path) = Err e ->
  is_FileNotFoundError e = false ->
  walk' (S fuel) cwd (path :: rest) s
  = if is_PermissionError e
    then walk' (S fuel) cwd rest (emit (SkipPermission (canonical' cwd path)) s1)
    else Raised e s1.
Proof.
  intros Hm Hpre Hst Hdev Hrec Hdir Hfol Hls Hnf.
  assert (R1 : FileSystem.reach os s s1).
  { eapply record_entry_reach; [exact Hpre | exact Hst |]. rewrite Hrec. reflexivity. }
  pose proof (reach_extends os _ _ R1) as (_ & _ & Hf & _).
  rewrite (walk_cons_after_record os module_base fuel cwd path rest s m sr _
             Hm Hpre Hst Hdev Hrec).
  unfold bind at 1. unfold try_except at 1. unfold descend. rewrite Hdir.
  unfold bind at 1. unfold gets at 1. rewrite Hf, Hfol.
  unfold try_except, bind, lift. rewrite Hls. unfold raise. rewrite Hnf.
  destruct (is_PermissionError e) eqn:Hp.
  - cbn. apply walk_resume. apply (int_maxsize_reach s); [| exact Hm].
    eapply reach_trans; [exact R1 | apply reach_emit].
  - destruct e; cbn in *; try discriminate; reflexivity.
Qed.

(** What [follow] unset means for one entry: the recursive call and the
    listing play no part. *)
Lemma visit_no_follow os' recurse recurse' m cwd path s :
  getcwd os' = getcwd os ->
  (forall p, lstat os' p = lstat os p) ->
  follow (self s) = false ->
  visit os module_base recurse m cwd path s
  = visit os' module_base recurse' m cwd path s
  /\ visit os module_base recurse m cwd path s <> OutOfFuel.
Proof.
  intros Hcwd Hlstat Hfol.
  assert (Ec : canonical_path_of os' module_base cwd path = canonical' cwd path).
  { unfold canonical_path_of, os_abspath. rewrite Hcwd. reflexivity. }
  destruct (Py.startswith (canonical' cwd path) (base (self s))) eqn:Hpre.
  - rewrite (visit_reaches_stat os module_base _ _ _ _ _ Hpre).
    rewrite <- Ec in Hpre.
    rewrite (visit_reaches_stat os' module_base _ _ _ _ _ Hpre).
    rewrite Ec, Hlstat.
    destruct (lstat os (canonical' cwd path)) as [sr | e]; [| split; [reflexivity | discriminate]].
    destruct (dev (self s)) as [d |]; [| split; [reflexivity | discriminate]].
    destruct (negb (st_dev sr =? d)); [split; [reflexivity | discriminate] |].
    unfold bind.
    destruct (record_entry_cases m (Py.slice_from (base_len (self s)) (canonical' cwd path))
                (canonical' cwd path) (relative_path_of cwd path) sr s)
      as [(_ & E) | [(_ & _ & _ & E) | [(_ & _ & _ & E) | (_ & _ & so & _ & [E | E])]]];
      rewrite E; unfold descend;
      try (split; [reflexivity | discriminate]);
      destruct (S_ISDIR (st_mode sr)); unfold bind, gets; cbn; rewrite ?Hfol;
      split; first [reflexivity | discriminate].
  - unfold visit, bind, gets. cbn. rewrite Ec, Hpre. cbn.
    split; [reflexivity | discriminate].
Qed.

Lemma for_each_no_follow os' fuel fuel' m cwd paths :
  getcwd os' = getcwd os ->
  (forall p, lstat os' p = lstat os p) ->
  forall s,
    follow (self s) = false ->
    for_each paths (visit_guarded os module_base (walk' fuel) m cwd) s
    = for_each paths
        (visit_guarded os' module_base (_init_from_paths os' module_base fuel') m cwd) s
    /\ for_each paths (visit_guarded os module_base (walk' fuel) m cwd) s <> OutOfFuel.
Proof.
  intros Hcwd Hlstat. induction paths as [| p ps IH]; intros s Hfol.
  - split; [reflexivity | discriminate].
  - cbn [for_each]. unfold bind.
    destruct (visit_no_follow os' (walk' fuel) (_init_from_paths os' module_base fuel')
                m cwd p s Hcwd Hlstat Hfol) as [Ev Hv].
    assert (Eg : visit_guarded os module_base (walk' fuel) m cwd p s
                 = visit_guarded os' module_base
                     (_init_from_paths os' module_base fuel') m cwd p s).
    { unfold visit_guarded, try_except. rewrite Ev. reflexivity. }
    rewrite <- Eg.
    destruct (visit_guarded os module_base (walk' fuel) m cwd p s)
      as [[] s1 | e s1 |] eqn:E.
    + apply IH.
      assert (R : FileSystem.reach os s s1).
      { apply (sound_visit_guarded os module_base (walk' fuel) m cwd p
                 (sound_walk os module_base fuel) s s1).
        rewrite E. reflexivity. }
      pose proof (reach_extends os _ _ R) as (_ & _ & Hf & _). congruence.
    + split; [reflexivity | discriminate].
    + exfalso. revert E. unfold visit_guarded, try_except.
      destruct (visit os module_base (walk' fuel) m cwd p s) as [[] s1 | e s1 |];
        try discriminate; [| congruence].
      destruct (is_FileNotFoundError e); [| discriminate].
      unfold on_missing, bind, gets. destruct (bailout (self s1)); discriminate.
Qed.

(** X13. With [follow] unset directories are leaves: the walk never
    lists a directory and never recurses, so any positive recursion
    budget is enough and the result is the same on every file tree that
    agrees on the working directory and on [lstat]. *)
Theorem walk_without_follow os' fuel cwd paths s :
  follow (self s) = false ->
  getcwd os' = getcwd os ->
  (forall p, lstat os' p = lstat os p) ->
  walk' (S fuel) cwd paths s <> OutOfFuel
  /\ walk' (S fuel) cwd paths s = _init_from_paths os' module_base 1 cwd paths s.
Proof.
  intros Hfol Hcwd Hlstat. cbn [_init_from_paths]. unfold bind.
  destruct (int_maxsize s) as [m s0 | e s0 |] eqn:Em.
  - assert (s0 = s).
    { revert Em. unfold int_maxsize, bind, gets.
      destruct (PyInt.int (maxsize (self s))) as [z | e]; cbn;
        [| destruct e; cbn]; intros H; inversion H; reflexivity. }
    subst s0.
    destruct (for_each_no_follow os' fuel 0 m cwd paths Hcwd Hlstat s Hfol) as [E N].
    split; [exact N | exact E].
  - split; [discriminate | reflexivity].
  - exfalso. revert Em. unfold int_maxsize, bind, gets.
    destruct (PyInt.int (maxsize (self s))) as [z | e]; cbn;
      [| destruct e; cbn]; discriminate.
Qed.

Lemma step_counts s s' :
  FileSystem.step os s s' ->
  exists ln lr,
    names s' = (names s ++ ln)%list
    /\ stat_objects s' = (stat_objects s ++ lr)%list
    /\ List.length ln = List.length lr
    /\ inode (self s') = inode (self s) + Z.of_nat (List.length lr).
Proof.
  intros [e s0 | cpath sr so s0 Hpre Hst Hmem Hso].
  - exists [], []. cbn. rewrite !app_nil_r. repeat split; lia.
  - exists [(Py.slice_from (base_len (self s0)) cpath, inode (self s0))], [so].
    cbn. rewrite (Dict_set_fresh _ _ _ Hmem). repeat split.
Qed.

Lemma reach_counts s s' :
  FileSystem.reach os s s' ->
  exists ln lr,
    names s' = (names s ++ ln)%list
    /\ stat_objects s' = (stat_objects s ++ lr)%list
    /\ List.length ln = List.length lr
    /\ inode (self s') = inode (self s) + Z.of_nat (List.length lr).
Proof.
  induction 1 as [s | s1 s2 s3 _ IH Hst].
  - exists [], []. rewrite !app_nil_r. repeat split; cbn; lia.
  - destruct IH as (ln & lr & Hn & Hr & Hl & Hi).
    destruct (step_counts _ _ Hst) as (ln' & lr' & Hn' & Hr' & Hl' & Hi').
    exists (ln ++ ln')%list, (lr ++ lr')%list.
    rewrite Hn', Hr', Hn, Hr, Hi', Hi, !app_assoc, !length_app.
    repeat split; lia.
Qed.

(** X14. A walk only appends.  In whatever state it ends, completed or
    raised, the names and records that were there are still there in
    the same places, every name has kept its identity, as many names as
    records were added, the counter has advanced by exactly that
    number, and the instance's settings are untouched.  This holds from
    any starting state. *)
Theorem walk_only_appends fuel cwd paths s s' :
  final_state (walk' fuel cwd paths s) = Some s' ->
  (exists ln lr,
     names s' = (names s ++ ln)%list
     /\ stat_objects s' = (stat_objects s ++ lr)%list
     /\ List.length ln = List.length lr
     /\ inode (self s') = inode (self s) + Z.of_nat (List.length lr))
  /\ (forall k v, Dict.get k (names s) = Some v -> Dict.get k (names s') = Some v)
  /\ base (self s') = base (self s)
  /\ base_len (self s') = base_len (self s)
  /\ follow (self s') = follow (self s)
  /\ bailout (self s') = bailout (self s)
  /\ maxsize (self s') = maxsize (self s)
  /\ dev (self s') = dev (self s).
Proof.
  intros H. pose proof (sound_walk os module_base fuel cwd paths s s' H) as R.
  pose proof (reach_extends os _ _ R) as (E1 & E2 & E3 & E4 & E5 & E6 & [l Hn] & _).
  split; [apply (reach_counts _ _ R) |].
  split; [| repeat split; assumption].
  intros k v Hk. rewrite Hn. apply Dict_get_app. exact Hk.
Qed.

Lemma for_each_no_file_not_found fuel m cwd paths :
  forall s s',
    bailout (self s) = false ->
    for_each paths (visit_guarded os module_base (walk' fuel) m cwd) s
    <> Raised FileNotFoundError s'.
Proof.
  induction paths as [| p ps IH]; intros s s' Hb; [discriminate |].
  cbn [for_each]. unfold bind.
  destruct (visit_guarded os module_base (walk' fuel) m cwd p s)
    as [[] s1 | e s1 |] eqn:E; [| | discriminate].
  - apply IH.
    assert (R : FileSystem.reach os s s1).
    { apply (sound_visit_guarded os module_base (walk' fuel) m cwd p
               (sound_walk os module_base fuel) s s1).
      rewrite E. reflexivity. }
    pose proof (reach_extends os _ _ R) as (_ & _ & _ & Hb' & _). congruence.
  - revert E. unfold visit_guarded, try_except.
    destruct (visit os module_base (walk' fuel) m cwd p s) as [[] s2 | e2 s2 |] eqn:Ev;
      try discriminate.
    destruct (is_FileNotFoundError e2) eqn:Hf.
    + assert (R : FileSystem.reach os s s2).
      { apply (visit_reach os module_base (walk' fuel) m cwd p s s2
                 (sound_walk os module_base fuel)).
        rewrite Ev. reflexivity. }
      pose proof (reach_extends os _ _ R) as (_ & _ & _ & Hb' & _).
      unfold on_missing, bind, gets. rewrite Hb', Hb. discriminate.
    + intros [= <- <-]. intros [= ->]. discriminate.
Qed.

Lemma of_str_raises_value_error t e :
  PyInt.of_str t = Err e -> exists w, e = ValueError w.
Proof.
  unfold PyInt.of_str. destruct (PyInt.sign (PyInt.skip t)) as [negative u].
  unfold PyInt.magnitude.
  destruct (Py.startswith u "_"); [intros [= <-]; eauto |].
  destruct (PyInt.scan u 0 0 false) as [[[v count] rest] |]; [| intros [= <-]; eauto].
  destruct (PyInt.max_str_digits <? count); [intros [= <-]; eauto |].
  destruct (count =? 0); [intros [= <-]; eauto |].
  destruct (PyInt.skip rest); [discriminate | intros [= <-]; eauto].
Qed.

(** X15. With [bailout] unset a walk never raises [FileNotFoundError]:
    an entry that has vanished is passed over at every level, whatever
    the tree and the root paths are. *)
Theorem no_bailout_no_file_not_found fuel cwd paths s s' :
  bailout (self s) = false ->
  _init_from_paths os module_base fuel cwd paths s <> Raised FileNotFoundError s'.
Proof.
  intros Hb. destruct fuel as [| fuel]; [discriminate |].
  cbn [_init_from_paths]. unfold bind.
  destruct (int_maxsize s) as [m s0 | e s0 |] eqn:Em; [| | discriminate].
  - assert (s0 = s).
    { revert Em. unfold int_maxsize, bind, gets.
      destruct (PyInt.int (maxsize (self s))) as [z | e]; cbn;
        [| destruct e; cbn]; intros H; inversion H; reflexivity. }
    subst s0. apply for_each_no_file_not_found. exact Hb.
  - revert Em. unfold int_maxsize, bind, gets, PyInt.int.
    destruct (maxsize (self s)) as [| z | t]; cbn; try discriminate.
    destruct (PyInt.of_str t) as [z | e'] eqn:Et; cbn; [discriminate |].
    destruct (of_str_raises_value_error _ _ Et) as [w ->]. cbn.
    intros [= <- <-]. discriminate.
Qed.

End WalkMore.

(** ** Lookups in a snapshot built by the walker *)


(** ** What [export_fs] writes *)

Lemma export_names_frame ks :
  forall s,
    (exists b, export_names ks s = Done b s)
    \/ (exists e, export_names ks s = Raised e s).
Proof.
  induction ks as [| k ks IH]; intros s; cbn [export_names].
  - left. eexists. reflexivity.
  - unfold bind, gets.
    destruct (Dict.mem Py.NL (names s)); cbn; [right; eexists; reflexivity |].
    destruct (Dict.get k (names s)) as [v |]; cbn; [| right; eexists; reflexivity].
    destruct (PyInt.format v) as [text | e]; cbn; [| right; eexists; reflexivity].
    destruct (IH s) as [[b Hb] | [e He]].
    + rewrite Hb. left. eexists. reflexivity.
    + rewrite He. right. eexists. reflexivity.
Qed.

Lemma export_records_spec todo :
  forall seen l s l' s',
    export_records todo seen l s = Done l' s' ->
    exists ps,
      Forall2 (fun so p => StatObject.serialize so = Ok p) todo ps
      /\ l' = (l ++ map fst ps)%list
      /\ stat_objects s'
         = match todo with
           | [] => stat_objects s
           | _ :: _ => (seen ++ map snd ps)%list
           end
      /\ names s' = names s
      /\ self s' = self s.
Proof.
  induction todo as [| so rest IH]; intros seen l s l' s'; cbn [export_records].
  - intros [= <- <-]. exists []. rewrite app_nil_r. repeat split. constructor.
  - unfold bind at 1. unfold lift.
    destruct (StatObject.serialize so) as [[b so'] | e] eqn:E; [| discriminate].
    cbn. unfold bind, modify, print. cbn. intros H.
    destruct (IH _ _ _ _ _ H) as (ps & HF & Hl & Hs & Hn & Hself).
    exists ((b, so') :: ps). repeat split.
    + constructor; [exact E | exact HF].
    + rewrite Hl, <- app_assoc. reflexivity.
    + rewrite Hs. destruct rest as [| so2 rest].
      * inversion HF; subst. cbn. reflexivity.
      * rewrite <- app_assoc. reflexivity.
    + exact Hn.
    + exact Hself.
Qed.

Lemma chunk_of_concat (bs : list (list Byte.byte)) :
  Forall (fun b => List.length b = 40%nat) bs ->
  forall i b,
    nth_error bs i = Some b ->
    firstn 40 (skipn (40 * i) (List.concat bs)) = b.
Proof.
  induction 1 as [| b0 bs Hb _ IH]; intros i b Hn.
  - destruct i; discriminate.
  - destruct i as [| i]; cbn [nth_error] in Hn.
    + injection Hn as <-. cbn [List.concat]. rewrite Nat.mul_0_r. cbn [skipn].
      rewrite firstn_app, <- Hb, firstn_all, Nat.sub_diag. cbn. apply app_nil_r.
    + cbn [List.concat].
      replace (40 * S i)%nat with (List.length b0 + 40 * i)%nat by lia.
      rewrite skipn_app, skipn_all2 by lia.
      replace (List.length b0 + 40 * i - List.length b0)%nat with (40 * i)%nat by lia.
      cbn [app]. apply IH. exact Hn.
Qed.

Lemma length_concat_40 (bs : list (list Byte.byte)) :
  Forall (fun b => List.length b = 40%nat) bs ->
  List.length (List.concat bs) = (40 * List.length bs)%nat.
Proof.
  induction 1 as [| b0 bs Hb _ IH]; cbn [List.concat List.length]; [reflexivity |].
  rewrite length_app, Hb, IH. lia.
Qed.

Lemma Forall2_nth_error_l A B (R : A -> B -> Prop) l1 l2 :
  Forall2 R l1 l2 ->
  forall i a, nth_error l1 i = Some a -> exists b, nth_error l2 i = Some b /\ R a b.
Proof.
  induction 1 as [| x y l1 l2 Hxy _ IH]; intros i a Hn.
  - destruct i; discriminate.
  - destruct i as [| i]; cbn in *.
    + injection Hn as <-. exists y. split; [reflexivity | exact Hxy].
    + apply IH. exact Hn.
Qed.

(** X17. What [export_fs] writes for the records.  For a snapshot whose
    records have not been serialized before, the file ends with exactly
    40 bytes per record, in the order of the record list, after the
    count line and the bytes of the names; the [i]-th block of 40 bytes
    unserializes to the fields of the [i]-th record.  Exporting changes
    neither the names nor the instance nor the number of records. *)
Theorem export_fs_record_region os s written s' :
  Forall (fun so => StatObject._serialized so = None) (stat_objects s) ->
  export_fs os s = Done written s' ->
  exists body recs,
    written = (Py.encode_utf8 (Py.str_of_int (inode (self s)) ++ Py.NL)
               ++ body ++ recs)%list
    /\ export_names (Dict.keys (names s)) s = Done body s
    /\ List.length recs = (40 * List.length (stat_objects s))%nat
    /\ (forall i so,
          nth_error (stat_objects s) i = Some so ->
          StatObject.unserialize StatObject.blank
            (StatObject.PyBytes (firstn 40 (skipn (40 * i) recs)))
          = Ok {| StatObject.mode := StatObject.mode so;
                  StatObject.inode := StatObject.inode so;
                  StatObject.gid := StatObject.gid so;
                  StatObject.uid := StatObject.uid so;
                  StatObject.mtime := StatObject.mtime so;
                  StatObject.ctime := StatObject.ctime so;
                  StatObject.size := StatObject.size so;
                  StatObject._serialized := None |})
    /\ names s' = names s
    /\ self s' = self s
    /\ List.length (stat_objects s') = List.length (stat_objects s).
Proof.
  intros Hfresh H. unfold export_fs, bind, gets in H. cbn in H.
  destruct (path_exists os (name (self s))); cbn in H; [discriminate |].
  unfold PyInt.format in H.
  destruct (PyInt.fits (inode (self s))); cbn in H; [| discriminate].
  destruct (export_names_frame (Dict.keys (names s)) s) as [[body Hb] | [e He]];
    [rewrite Hb in H | rewrite He in H; discriminate].
  destruct (export_records (stat_objects s) [] [] s) as [l s1 | e s1 |] eqn:El;
    [| discriminate | discriminate].
  cbn in H. injection H as <- <-.
  destruct (export_records_spec _ _ _ _ _ _ El) as (ps & HF & Hl & Hs & Hn & Hself).
  cbn in Hl. subst l.
  assert (H40 : Forall (fun b => List.length b = 40%nat) (map fst ps)).
  { clear El Hs. revert Hfresh.
    induction HF as [| so p sos ps Hp _ IH]; intros Hfresh; cbn; constructor.
    - inversion Hfresh; subst. destruct p as [b so'].
      apply (serialize_fresh_length so b so'); assumption.
    - apply IH. inversion Hfresh; assumption. }
  assert (Hlen : List.length ps = List.length (stat_objects s))
    by (symmetry; apply (Forall2_length HF)).
  exists body, (List.concat (map fst ps)).
  split; [reflexivity |]. split; [exact Hb |].
  split; [| split; [| split; [| split]]].
  - rewrite (length_concat_40 _ H40), length_map, Hlen. reflexivity.
  - intros i so Hi.
    destruct (Forall2_nth_error_l _ _ _ _ _ HF i so Hi) as ([b so'] & Hp & Hser).
    rewrite (chunk_of_concat _ H40 i b)
      by (rewrite nth_error_map, Hp; reflexivity).
    apply (unserialize_serialize so b so'); [| exact Hser].
    apply (proj1 (Forall_forall _ _) Hfresh). apply (nth_error_In _ _ Hi).
  - exact Hn.
  - exact Hself.
  - rewrite Hs. destruct (stat_objects s); [reflexivity |].
    cbn [app]. rewrite length_map. exact Hlen.
Qed.

Arguments Py.encode_utf8 : simpl never.

Lemma export_names_done d : forall s body s',
  (forall kv, In kv d -> Dict.get (fst kv) (names s) = Some (snd kv)) ->
  export_names (map fst d) s = Done body s' ->
  s' = s /\ body = flat_map (fun kv => Py.encode_utf8 (name_lines kv)) d.
Proof.
  induction d as [| [k v] d IH]; intros s body s' Hget; cbn [map export_names flat_map].
  - intros [= <- <-]. split; reflexivity.
  - unfold bind, gets.
    destruct (Dict.mem Py.NL (names s)); cbn; [discriminate |].
    pose proof (Hget (k, v) (or_introl eq_refl)) as Hk. cbn in Hk.
    rewrite Hk. cbn. unfold PyInt.format.
    destruct (PyInt.fits v); cbn; [| discriminate].
    destruct (export_names (map fst d) s) as [more s1 | e s1 |] eqn:Ed; cbn;
      [| discriminate | discriminate].
    destruct (IH s more s1 (fun kv Hin => Hget kv (or_intror Hin)) Ed) as [-> ->].
    intros [= <- <-]. split; reflexivity.
Qed.

Lemma export_names_layout s d :
  (forall kv, In kv d -> Dict.get (fst kv) (names s) = Some (snd kv)) ->
  (forall kv, In kv d -> PyInt.fits (snd kv) = true) ->
  Dict.mem Py.NL (names s) = false ->
  export_names (map fst d) s
  = Done (flat_map (fun kv => Py.encode_utf8 (name_lines kv)) d) s.
Proof.
  intros Hget Hfit Hnl. induction d as [| [k v] d IH]; cbn [map export_names flat_map].
  - reflexivity.
  - unfold bind, gets. rewrite Hnl. cbn.
    pose proof (Hget (k, v) (or_introl eq_refl)) as Hk. cbn in Hk.
    rewrite Hk. cbn. unfold PyInt.format.
    pose proof (Hfit (k, v) (or_introl eq_refl)) as Hf. cbn [snd] in Hf.
    rewrite Hf. cbn.
    rewrite IH;
      [reflexivity
      | intros kv Hin; apply Hget; right; exact Hin
      | intros kv Hin; apply Hfit; right; exact Hin].
Qed.

(** X18. What the assertion in the name loop of [export_fs] tests.  It
    asks whether the one-character name made of a newline is a key:
    with that key and at least one name the loop raises
    [AssertionError] at once.  It stops nothing else: whenever the loop
    completes, that key is absent and the loop has written for each
    name, in the order of [names], the name, a newline, its identity in
    decimal and a newline, also when the name has a newline inside
    it. *)
Theorem export_names_assertion s :
  NoDup (Dict.keys (names s)) ->
  (Dict.mem Py.NL (names s) = true ->
     names s <> [] ->
     export_names (Dict.keys (names s)) s = Raised AssertionError s)
  /\ (forall body s',
        export_names (Dict.keys (names s)) s = Done body s' ->
        Dict.mem Py.NL (names s) = false
        /\ s' = s
        /\ body = flat_map (fun kv => Py.encode_utf8 (name_lines kv)) (names s)).
Proof.
  intros Hnd.
  assert (Hraise : Dict.mem Py.NL (names s) = true ->
                   names s <> [] ->
                   export_names (Dict.keys (names s)) s = Raised AssertionError s).
  { intros Hnl Hne. destruct (names s) as [| [k v] d] eqn:E; [congruence |].
    cbn [Dict.keys map export_names]. unfold bind, gets. rewrite E, Hnl. reflexivity. }
  split; [exact Hraise |].
  intros body s' H. split.
  - destruct (Dict.mem Py.NL (names s)) eqn:Hnl; [| reflexivity].
    destruct (names s) as [| kv d] eqn:E; [discriminate Hnl |].
    rewrite (Hraise eq_refl) in H; discriminate.
  - apply export_names_done; [| exact H].
    intros [k v] Hin. apply Dict_get_first; assumption.
Qed.

(** ** White space and decimal text *)

Lemma lstrip_app a b :
  Py.lstrip (a ++ b) = match Py.lstrip a with
                       | EmptyString => Py.lstrip b
                       | t => t ++ b
                       end.
Proof.
  induction a as [| c a IH]; cbn; [destruct (Py.lstrip b); reflexivity |].
  destruct (Py.isspace c); [exact IH | reflexivity].
Qed.

Lemma rstrip_app_NL a : Py.rstrip (a ++ Py.NL) = Py.rstrip a.
Proof.
  induction a as [| c a IH]; [reflexivity |].
  cbn [append Py.rstrip]. rewrite IH. reflexivity.
Qed.

Lemma strip_app_NL a : Py.strip (a ++ Py.NL) = Py.strip a.
Proof.
  unfold Py.strip. rewrite lstrip_app.
  destruct (Py.lstrip a) as [| c t] eqn:E; [reflexivity |].
  change (String c t ++ Py.NL) with (String c t ++ Py.NL).
  apply rstrip_app_NL.
Qed.

Lemma digit_facts c k t :
  PyInt.digit c = Some k ->
  PyInt.space c = false
  /\ PyInt.sign (String c t) = (false, String c t)
  /\ Py.startswith (String c t) "_" = false.
Proof.
  destruct c as [[] [] [] [] [] [] [] []]; intros H; vm_compute in H;
    try discriminate H; repeat split; reflexivity.
Qed.

Lemma scan_step c k s acc count b :
  PyInt.digit c = Some k ->
  PyInt.scan (String c s) acc count b = PyInt.scan s (acc * 10 + k) (count + 1) false.
Proof. intros H. cbn [PyInt.scan]. rewrite H. reflexivity. Qed.

(** A run of digits is scanned to its end when what follows it cannot
    continue the run. *)
Lemma scan_uint d rest :
  (forall a k, PyInt.scan rest a k false = Some (a, k, rest)) ->
  forall acc count,
    PyInt.scan (NilEmpty.string_of_uint d ++ rest) acc count false
    = Some (PyInt.uacc d acc,
            count + Z.of_nat (String.length (NilEmpty.string_of_uint d)), rest).
Proof.
  intros Hrest.
  induction d as [| d IH | d IH | d IH | d IH | d IH | d IH | d IH | d IH | d IH | d IH];
    intros acc count;
    [cbn [NilEmpty.string_of_uint append String.length PyInt.uacc];
     rewrite Hrest, Z.add_0_r; reflexivity | ..];
    cbn [NilEmpty.string_of_uint append PyInt.uacc String.length];
    erewrite scan_step by (vm_compute; reflexivity);
    rewrite IH; do 2 f_equal; f_equal; lia.
Qed.

Lemma uint_head d :
  d <> Decimal.Nil ->
  exists c k t, NilEmpty.string_of_uint d = String c t /\ PyInt.digit c = Some k.
Proof.
  destruct d; [congruence | ..]; intros _; cbn [NilEmpty.string_of_uint];
    do 3 eexists; (split; [reflexivity | vm_compute; reflexivity]).
Qed.

Lemma uacc_pos d : forall acc,
  PyInt.uacc d (Z.pos acc) = Z.pos (Pos.of_uint_acc d acc).
Proof.
  induction d as [| d IH | d IH | d IH | d IH | d IH | d IH | d IH | d IH | d IH | d IH];
    intros acc; [reflexivity | ..]; cbn [PyInt.uacc Pos.of_uint_acc];
    rewrite <- IH; f_equal; lia.
Qed.

Lemma uacc_zero d : PyInt.uacc d 0 = Z.of_N (Pos.of_uint d).
Proof.
  induction d as [| d IH | d IH | d IH | d IH | d IH | d IH | d IH | d IH | d IH | d IH];
    [reflexivity | exact IH | ..];
    cbn [PyInt.uacc Pos.of_uint]; cbn [Z.mul Z.add]; rewrite uacc_pos; reflexivity.
Qed.

Lemma no_nl_uint d : Py.contains "010"%char (NilEmpty.string_of_uint d) = false.
Proof. induction d; cbn; [reflexivity | ..]; exact IHd. Qed.

Lemma to_uint_nonnil p : Pos.to_uint p <> Decimal.Nil.
Proof.
  intros H. pose proof (DecimalPos.Unsigned.of_to p) as E. rewrite H in E. discriminate.
Qed.

Lemma str_of_int_cases z :
  (z = 0 /\ Py.str_of_int z = "0")
  \/ (exists p, z = Z.pos p /\ Py.str_of_int z = NilEmpty.string_of_uint (Pos.to_uint p))
  \/ (exists p, z = Z.neg p
                /\ Py.str_of_int z = String "-" (NilEmpty.string_of_uint (Pos.to_uint p))).
Proof.
  unfold Py.str_of_int. destruct z as [| p | p]; cbn.
  - left. split; reflexivity.
  - right. left. exists p. split; [reflexivity |].
    pose proof (to_uint_nonnil p). destruct (Pos.to_uint p); [congruence | ..]; reflexivity.
  - right. right. exists p. split; [reflexivity |].
    pose proof (to_uint_nonnil p). destruct (Pos.to_uint p); [congruence | ..]; reflexivity.
Qed.

Lemma no_nl_str_of_int z : Py.contains "010"%char (Py.str_of_int z) = false.
Proof.
  destruct (str_of_int_cases z) as [[_ ->] | [(p & _ & ->) | (p & _ & ->)]].
  - reflexivity.
  - apply no_nl_uint.
  - cbn. apply no_nl_uint.
Qed.

Lemma scan_end a k : PyInt.scan "" a k false = Some (a, k, "").
Proof. reflexivity. Qed.

Lemma scan_NL a k : PyInt.scan Py.NL a k false = Some (a, k, Py.NL).
Proof. reflexivity. Qed.

(** The digits of a positive number, followed by nothing or by the
    newline that ends a line, are read as that number when they are
    within the digit limit. *)
Lemma magnitude_pos s p r :
  r = "" \/ r = Py.NL ->
  PyInt.fits (Z.pos p) = true ->
  PyInt.skip (NilEmpty.string_of_uint (Pos.to_uint p) ++ r)
  = NilEmpty.string_of_uint (Pos.to_uint p) ++ r
  /\ PyInt.sign (NilEmpty.string_of_uint (Pos.to_uint p) ++ r)
     = (false, NilEmpty.string_of_uint (Pos.to_uint p) ++ r)
  /\ PyInt.magnitude s (NilEmpty.string_of_uint (Pos.to_uint p) ++ r) = Ok (Z.pos p).
Proof.
  intros Hr Hfit.
  assert (Hlen : Z.of_nat (String.length (NilEmpty.string_of_uint (Pos.to_uint p)))
                 <= PyInt.max_str_digits).
  { unfold PyInt.fits in Hfit. apply Z.leb_le in Hfit.
    change (Z.abs (Z.pos p)) with (Z.pos p) in Hfit.
    destruct (str_of_int_cases (Z.pos p)) as [[E _] | [(q & E & Hq) | (q & E & _)]];
      try discriminate E.
    injection E as <-. rewrite Hq in Hfit. exact Hfit. }
  assert (Hscan : PyInt.scan (NilEmpty.string_of_uint (Pos.to_uint p) ++ r) 0 0 false
                  = Some (Z.pos p,
                          Z.of_nat (String.length (NilEmpty.string_of_uint (Pos.to_uint p))),
                          r)).
  { rewrite scan_uint
      by (destruct Hr as [-> | ->]; intros; [apply scan_end | apply scan_NL]).
    rewrite uacc_zero, DecimalPos.Unsigned.of_to. reflexivity. }
  destruct (uint_head _ (to_uint_nonnil p)) as (c & k & t & E & Hc).
  rewrite E in *. cbn [append] in *.
  destruct (digit_facts c k (t ++ r) Hc) as (Hsp & Hsg & Hus).
  split; [cbn [PyInt.skip]; rewrite Hsp; reflexivity |].
  split; [exact Hsg |].
  unfold PyInt.magnitude. rewrite Hus, Hscan.
  replace (PyInt.max_str_digits <? Z.of_nat (String.length (String c t))) with false
    by (symmetry; apply Z.ltb_ge; exact Hlen).
  replace (Z.of_nat (String.length (String c t)) =? 0) with false
    by (symmetry; apply Z.eqb_neq; cbn [String.length]; lia).
  destruct Hr as [-> | ->]; reflexivity.
Qed.

Lemma of_str_format z r :
  r = "" \/ r = Py.NL ->
  PyInt.fits z = true ->
  PyInt.of_str (Py.str_of_int z ++ r) = Ok z.
Proof.
  intros Hr Hfit.
  destruct (str_of_int_cases z) as [[-> ->] | [(p & -> & ->) | (p & -> & ->)]].
  - destruct Hr as [-> | ->]; reflexivity.
  - destruct (magnitude_pos (NilEmpty.string_of_uint (Pos.to_uint p) ++ r) p r Hr Hfit)
      as (Hsk & Hsg & Hm).
    unfold PyInt.of_str. rewrite Hsk, Hsg, Hm. reflexivity.
  - change (PyInt.fits (Z.neg p)) with (PyInt.fits (Z.pos p)) in Hfit.
    destruct (magnitude_pos
                (String "-" (NilEmpty.string_of_uint (Pos.to_uint p)) ++ r) p r Hr Hfit)
      as (_ & _ & Hm).
    unfold PyInt.of_str. cbn [append].
    change (PyInt.skip (String "-" (NilEmpty.string_of_uint (Pos.to_uint p) ++ r)))
      with (String "-" (NilEmpty.string_of_uint (Pos.to_uint p) ++ r)).
    change (PyInt.sign (String "-" (NilEmpty.string_of_uint (Pos.to_uint p) ++ r)))
      with (true, NilEmpty.string_of_uint (Pos.to_uint p) ++ r).
    cbn [append] in Hm. cbv beta iota. rewrite Hm. reflexivity.
Qed.

Lemma of_str_line z :
  PyInt.fits z = true -> PyInt.of_str (Py.str_of_int z ++ Py.NL) = Ok z.
Proof. apply of_str_format. right. reflexivity. Qed.

(** ** Reading the names back *)

Lemma str_app_assoc a b c : (a ++ b) ++ c = a ++ (b ++ c).
Proof. induction a as [| x a IH]; cbn; [reflexivity | rewrite IH; reflexivity]. Qed.

Lemma readline_line k rest :
  Py.contains "010"%char k = false ->
  Py.readline (k ++ Py.NL ++ rest) = (k ++ Py.NL, rest).
Proof.
  induction k as [| c k IH]; cbn; [reflexivity |].
  destruct (Ascii.eqb c "010"%char); cbn; [discriminate |].
  intros H. unfold Py.NL in IH. cbn in IH. rewrite (IH H). reflexivity.
Qed.

Lemma Dict_not_in_mem k d : ~ In k (Dict.keys d) -> Dict.mem k d = false.
Proof.
  unfold Dict.mem. induction d as [| [k' v'] d IH]; cbn; [reflexivity |].
  intros H. destruct (String.eqb_spec k k') as [-> | _].
  - exfalso. apply H. left. reflexivity.
  - apply IH. intros Hin. apply H. right. exact Hin.
Qed.

Lemma fold_set_fresh d : forall d0,
  NoDup (Dict.keys d0 ++ Dict.keys d) ->
  fold_left (fun acc kv => Dict.set (fst kv) (snd kv) acc) d d0 = (d0 ++ d)%list.
Proof.
  induction d as [| [k v] d IH]; intros d0 Hnd; cbn.
  - rewrite app_nil_r. reflexivity.
  - cbn in Hnd. rewrite Dict_set_fresh.
    + rewrite IH.
      * rewrite <- app_assoc. reflexivity.
      * unfold Dict.keys in *. rewrite map_app. cbn. rewrite <- app_assoc. exact Hnd.
    + apply Dict_not_in_mem. apply NoDup_remove_2 in Hnd.
      intros Hin. apply Hnd. apply in_or_app. left. exact Hin.
Qed.

Lemma import_names_text d : forall rest s,
  (forall k, In k (Dict.keys d) -> plain_name k) ->
  (forall kv, In kv d -> PyInt.fits (snd kv) = true) ->
  import_names (List.length d) (names_text d ++ rest) s
  = Done rest
      (set_names (fold_left (fun acc kv => Dict.set (fst kv) (snd kv) acc) d (names s)) s).
Proof.
  induction d as [| [k v] d IH]; intros rest s Hplain Hfit.
  - cbn. destruct s; reflexivity.
  - destruct (Hplain k (or_introl eq_refl)) as (_ & Hnl & Hstrip).
    cbn [List.length import_names names_text]. unfold name_lines. cbn [fst snd].
    rewrite !str_app_assoc.
    rewrite (readline_line k _ Hnl), strip_app_NL, Hstrip.
    rewrite (readline_line (Py.str_of_int v) _ (no_nl_str_of_int v)).
    rewrite (of_str_line v (Hfit (k, v) (or_introl eq_refl))).
    unfold bind, lift, ret, modify. cbn [fold_left fst snd].
    rewrite IH;
      [reflexivity
      | intros x Hin; apply Hplain; right; exact Hin
      | intros x Hin; apply Hfit; right; exact Hin].
Qed.

Lemma plain_names_no_newline_key d :
  (forall k, In k (Dict.keys d) -> plain_name k) -> Dict.mem Py.NL d = false.
Proof.
  intros Hplain. apply Dict_not_in_mem. intros Hin.
  destruct (Hplain _ Hin) as (_ & H & _). discriminate.
Qed.

Lemma list_ascii_app a b :
  list_ascii_of_string (a ++ b) = (list_ascii_of_string a ++ list_ascii_of_string b)%list.
Proof. induction a as [| c a IH]; cbn; [reflexivity | rewrite IH; reflexivity]. Qed.

Lemma encode_utf8_app a b :
  Py.encode_utf8 (a ++ b) = (Py.encode_utf8 a ++ Py.encode_utf8 b)%list.
Proof. unfold Py.encode_utf8. rewrite list_ascii_app, flat_map_app. reflexivity. Qed.

Lemma encode_names_text d :
  flat_map (fun kv => Py.encode_utf8 (name_lines kv)) d = Py.encode_utf8 (names_text d).
Proof.
  induction d as [| kv d IH]; cbn [flat_map names_text]; [reflexivity |].
  rewrite encode_utf8_app, IH. reflexivity.
Qed.

(** *** What is written is what is read *)

Lemma kept_app a b :
  forallb Py.kept (list_ascii_of_string (a ++ b))
  = forallb Py.kept (list_ascii_of_string a) && forallb Py.kept (list_ascii_of_string b).
Proof. rewrite list_ascii_app. apply forallb_app. Qed.

Lemma kept_uint d : forallb Py.kept (list_ascii_of_string (NilEmpty.string_of_uint d)) = true.
Proof.
  induction d; cbn [NilEmpty.string_of_uint list_ascii_of_string forallb];
    [reflexivity | ..]; rewrite IHd; reflexivity.
Qed.

Lemma kept_str_of_int z : forallb Py.kept (list_ascii_of_string (Py.str_of_int z)) = true.
Proof.
  destruct (str_of_int_cases z) as [[_ ->] | [(p & _ & ->) | (p & _ & ->)]].
  - reflexivity.
  - apply kept_uint.
  - cbn [list_ascii_of_string forallb]. rewrite kept_uint. reflexivity.
Qed.

Lemma kept_names_text d :
  (forall k, In k (Dict.keys d) -> plain_name k) ->
  forallb Py.kept (list_ascii_of_string (names_text d)) = true.
Proof.
  induction d as [| [k v] d IH]; intros Hplain; cbn [names_text]; [reflexivity |].
  unfold name_lines. cbn [fst snd]. rewrite !kept_app, kept_str_of_int.
  rewrite (proj1 (Hplain k (or_introl eq_refl))).
  rewrite IH by (intros x Hin; apply Hplain; right; exact Hin).
  reflexivity.
Qed.

(** Text of kept characters is read back, in text mode, as the text
    whose bytes were written. *)
Lemma ascii_text_encode s :
  forallb Py.kept (list_ascii_of_string s) = true ->
  Py.ascii_text (Py.encode_utf8 s) = Some s.
Proof.
  unfold Py.encode_utf8.
  induction s as [| c s IH]; cbn [list_ascii_of_string forallb flat_map];
    [reflexivity |].
  intros H. apply andb_true_iff in H. destruct H as [Hc Hs].
  unfold Py.kept in Hc. pose proof Hc as Hc'.
  apply andb_true_iff in Hc'. destruct Hc' as [Hlt _]. rewrite Hlt.
  cbn [app Py.ascii_text]. rewrite ascii_of_byte_of_ascii, Hc, (IH Hs). reflexivity.
Qed.

(** X20. The names section round-trips.  For a NodeTable whose names
    are plain (ASCII, no newline and no carriage return inside, no
    white space around) and whose identities are within the digit limit
    of the decimal conversion, the name loop of [export_fs] completes
    and writes the bytes of the names text; these bytes, read in text
    mode, are that same text; and the first loop of [import_fs], run in
    a fresh process on that text followed by any text, rebuilds the same
    NodeTable in the same order and leaves what follows unread. *)
Theorem names_section_round_trip d rest s0 s :
  NoDup (Dict.keys d) ->
  (forall k, In k (Dict.keys d) -> plain_name k) ->
  (forall kv, In kv d -> PyInt.fits (snd kv) = true) ->
  names s0 = d ->
  names s = [] ->
  export_names (Dict.keys d) s0 = Done (Py.encode_utf8 (names_text d)) s0
  /\ Py.ascii_text (Py.encode_utf8 (names_text d)) = Some (names_text d)
  /\ import_names (List.length d) (names_text d ++ rest) s
     = Done rest (set_names d s).
Proof.
  intros Hnd Hplain Hfit H0 Hs. split; [| split].
  - rewrite <- encode_names_text. subst d. apply export_names_layout.
    + intros [k v] Hin. apply Dict_get_first; assumption.
    + exact Hfit.
    + apply plain_names_no_newline_key. exact Hplain.
  - apply ascii_text_encode, kept_names_text. exact Hplain.
  - rewrite (import_names_text d rest s Hplain Hfit), Hs.
    rewrite (fold_set_fresh d []) by exact Hnd. reflexivity.
Qed.

(** X21. [import_fs] on a file that reads, in text mode, as a snapshot
    of plain names: the count [n] of the names, the [n] names with
    their identities, and then any text; the count and the identities
    are within the digit limit of the decimal conversion.  With
    [n >= 1] the import sets the counter to [n], loads the NodeTable,
    and then raises [TypeError] at the first record: the names come
    back, no record ever does.  With the count 0 it returns
    normally. *)
Theorem import_fs_on_exported_layout os s d recs :
  NoDup (Dict.keys d) ->
  (forall k, In k (Dict.keys d) -> plain_name k) ->
  (forall kv, In kv d -> PyInt.fits (snd kv) = true) ->
  PyInt.fits (Z.of_nat (List.length d)) = true ->
  names s = [] ->
  read_text os (name (self s))
  = Ok (Py.str_of_int (Z.of_nat (List.length d)) ++ Py.NL ++ names_text d ++ recs) ->
  import_fs os s
  = match d with
    | [] => Done tt (set_inode 0 s)
    | _ :: _ => Raised TypeError (set_names d (set_inode (Z.of_nat (List.length d)) s))
    end.
Proof.
  intros Hnd Hplain Hfit Hcount Hs Hread.
  unfold import_fs. unfold bind at 1. unfold gets at 1.
  unfold bind at 1. rewrite Hread. unfold lift at 1, ret at 1.
  rewrite (readline_line _ _ (no_nl_str_of_int _)).
  unfold bind at 1. rewrite (of_str_line _ Hcount). unfold lift at 1, ret at 1.
  unfold bind at 1. unfold modify at 1.
  unfold bind at 1. rewrite Nat2Z.id.
  rewrite (import_names_text d recs _ Hplain Hfit). cbn [names set_inode].
  rewrite Hs, (fold_set_fresh d []) by exact Hnd. cbn [app].
  destruct d as [| kv d]; [destruct s; cbn in Hs; subst; reflexivity |].
  reflexivity.
Qed.

(** ** More on the path canonicalizer *)

(** What [add] does depends on the set only in the last step. *)
Lemma add_shape os self path :
  (exists c, c <> "" /\ forall ps, Paths.add os self path ps = Done tt (Paths.set_add c ps))
  \/ (exists e, forall ps, Paths.add os self path ps = Raised e ps).
Proof.
  unfold Paths.add, bind, try_except, lift, modify.
  destruct (os_realpath os (Py.strip path)) as [c | e] eqn:E; cbn.
  - destruct (Paths.relative_only self).
    + destruct (Py.startswith c (Paths.base self)); cbn.
      * left. eexists. split; [| intros ps; reflexivity].
        destruct (String.eqb_spec (Py.slice_from (String.length (Paths.base self) + 1) c) "");
          [discriminate | assumption].
      * right. eexists. intros ps. reflexivity.
    + cbn. left. eexists. split; [| intros ps; reflexivity].
      destruct (String.eqb_spec c ""); [discriminate | assumption].
  - destruct e; try (right; eexists; intros ps; reflexivity).
    destruct (Py.index Py.NUL (Py.strip path)); cbn;
      right; eexists; intros ps; reflexivity.
Qed.

Lemma existsb_eqb_In c ps : existsb (String.eqb c) ps = true <-> In c ps.
Proof.
  rewrite existsb_exists. split.
  - intros (x & Hin & Heq). apply String.eqb_eq in Heq. subst. exact Hin.
  - intros Hin. exists c. split; [exact Hin | apply String.eqb_refl].
Qed.

Lemma set_add_In c ps : In c (Paths.set_add c ps).
Proof.
  unfold Paths.set_add. destruct (existsb (String.eqb c) ps) eqn:E.
  - apply existsb_eqb_In. exact E.
  - apply in_or_app. right. left. reflexivity.
Qed.

Lemma set_add_idem c ps : Paths.set_add c (Paths.set_add c ps) = Paths.set_add c ps.
Proof.
  unfold Paths.set_add at 1.
  rewrite (proj2 (existsb_eqb_In c _) (set_add_In c ps)). reflexivity.
Qed.

Lemma set_add_NoDup c ps : NoDup ps -> NoDup (Paths.set_add c ps).
Proof.
  intros H. unfold Paths.set_add. destruct (existsb (String.eqb c) ps) eqn:E; [exact H |].
  apply NoDup_app; [exact H | constructor; [intros [] | constructor] |].
  intros a Ha [Heq | []]. subst a.
  apply (proj2 (existsb_eqb_In c ps)) in Ha. congruence.
Qed.

(** X22. Adding a path is idempotent and only grows the set: after a
    successful [add], the same [add] again changes nothing; nothing
    that was in the set is lost, at most one element is new, the empty
    string is never put in, and a set without repetitions stays so. *)
Theorem add_idempotent os self path ps ps' :
  Paths.add os self path ps = Done tt ps' ->
  Paths.add os self path ps' = Done tt ps'
  /\ (forall x, In x ps -> In x ps')
  /\ (List.length ps' <= S (List.length ps))%nat
  /\ (~ In "" ps -> ~ In "" ps')
  /\ (NoDup ps -> NoDup ps').
Proof.
  destruct (add_shape os self path) as [(c & Hc & H) | (e & H)]; rewrite H;
    [| discriminate].
  intros [= <-]. rewrite H, set_add_idem. split; [reflexivity |].
  unfold Paths.set_add. destruct (existsb (String.eqb c) ps) eqn:E.
  - repeat split; try tauto; lia.
  - repeat split.
    + intros x Hx. apply in_or_app. left. exact Hx.
    + rewrite length_app. cbn. lia.
    + intros Hn Hin. apply in_app_or in Hin. destruct Hin as [Hin | [Heq | []]];
        [exact (Hn Hin) | congruence].
    + intros Hnd. pose proof (set_add_NoDup c ps Hnd) as H'.
      unfold Paths.set_add in H'. rewrite E in H'. exact H'.
Qed.

Lemma lstrip_head s :
  Py.lstrip s = "" \/ exists c t, Py.lstrip s = String c t /\ Py.isspace c = false.
Proof.
  induction s as [| c s IH]; cbn; [left; reflexivity |].
  destruct (Py.isspace c) eqn:E; [exact IH |].
  right. exists c, s. split; [reflexivity | exact E].
Qed.

Lemma rstrip_head c t :
  Py.isspace c = false -> exists t', Py.rstrip (String c t) = String c t'.
Proof.
  intros H. cbn. destruct (Py.rstrip t); [rewrite H |]; eexists; reflexivity.
Qed.

Lemma rstrip_idem s : Py.rstrip (Py.rstrip s) = Py.rstrip s.
Proof.
  induction s as [| c s IH]; [reflexivity |].
  cbn [Py.rstrip]. destruct (Py.rstrip s) as [| d r] eqn:E.
  - destruct (Py.isspace c) eqn:Hc; [reflexivity |]. cbn. rewrite Hc. reflexivity.
  - cbn [Py.rstrip]. cbn [Py.rstrip] in IH. rewrite IH. reflexivity.
Qed.

Lemma strip_idem s : Py.strip (Py.strip s) = Py.strip s.
Proof.
  unfold Py.strip. destruct (lstrip_head s) as [-> | (c & t & -> & Hc)]; [reflexivity |].
  destruct (rstrip_head c t Hc) as [t' E]. rewrite E.
  cbn [Py.lstrip]. rewrite Hc, <- E. apply rstrip_idem.
Qed.

(** X23. [add] ignores white space around the path: a path with
    leading or trailing blanks, tabs or the newline of an input line is
    added exactly like the path stripped of them. *)
Theorem add_ignores_surrounding_space os self path ps :
  Paths.add os self path ps = Paths.add os self (Py.strip path) ps
  /\ Paths.add os self (path ++ Py.NL) ps = Paths.add os self path ps.
Proof.
  unfold Paths.add. rewrite strip_idem, strip_app_NL. split; reflexivity.
Qed.

Lemma slice_from_all a : Py.slice_from (String.length a + 1) a = "".
Proof. induction a as [| c a IH]; cbn; [reflexivity | exact IH]. Qed.

(** X24. What [add] accumulates under [relative_only] for a path that
    lies under the base, when the base is not [/]: the base directory
    itself is accumulated as [.], and a path that resolves to the base,
    a separator and a remainder is accumulated as that remainder. *)
Theorem add_under_base os self path ps r :
  Paths.relative_only self = true ->
  (os_realpath os (Py.strip path) = Ok (Paths.base self) ->
     Paths.add os self path ps = Done tt (Paths.set_add "." ps))
  /\ (r <> "" ->
      os_realpath os (Py.strip path) = Ok (Paths.base self ++ "/" ++ r) ->
      Paths.add os self path ps = Done tt (Paths.set_add r ps)).
Proof.
  intros Hrel. split.
  - intros Hreal.
    rewrite (add_startswith_accumulates os self path ps _ Hrel Hreal
               (prefix_refl (Paths.base self))).
    rewrite slice_from_all. reflexivity.
  - intros Hr Hreal.
    rewrite (add_startswith_accumulates os self path ps _ Hrel Hreal
               (prefix_app_self (Paths.base self) _)).
    cbv zeta.
    change (Paths.base self ++ "/" ++ r) with (Paths.base self ++ String "/"%char r).
    rewrite slice_from_sep.
    destruct (String.eqb_spec r ""); [congruence | reflexivity].
Qed.

Lemma for_each_app S A (l1 l2 : list A) (body : A -> M S unit) s :
  for_each (l1 ++ l2) body s
  = match for_each l1 body s with
    | Done _ s1 => for_each l2 body s1
    | Raised e s1 => Raised e s1
    | OutOfFuel => OutOfFuel
    end.
Proof.
  revert s. induction l1 as [| x l1 IH]; intros s; cbn [app for_each].
  - reflexivity.
  - unfold bind. destruct (body x s) as [[] s1 | e s1 |]; [apply IH | reflexivity | reflexivity].
Qed.

(** X25. The constructor of [Paths] adds the paths in order and does
    not undo anything: when the [add] of one path raises, the
    constructor raises that error and the set holds what the paths
    before it accumulated. *)
Theorem Paths_init_keeps_earlier_paths os base rel before path after ps ps1 e b :
  os_realpath os (match base with None => "." | Some b0 => b0 end) = Ok b ->
  let self := {| Paths.base := b; Paths.relative_only := rel |} in
  for_each before (Paths.add os self) ps = Done tt ps1 ->
  Paths.add os self path ps1 = Raised e ps1 ->
  Paths.__init__ os base rel (Some (before ++ path :: after)%list) ps = Raised e ps1.
Proof.
  intros Hb self Hbefore Hadd. unfold Paths.__init__.
  unfold bind at 1. rewrite Hb. cbn [lift ret].
  unfold bind at 1. rewrite for_each_app. fold self. rewrite Hbefore.
  cbn [for_each]. unfold bind at 1. rewrite Hadd. reflexivity.
Qed.

(** ** The further properties on the small tree *)

Lemma record_bytes_round_trip_witness :
  let so := hd StatObject.blank (Demo.record_of "/x/a" 0) in
  exists b so',
    StatObject.serialize so = Ok (b, so')
    /\ List.length b = 40%nat
    /\ exists back,
         StatObject.unserialize StatObject.blank (StatObject.PyBytes b) = Ok back
         /\ StatObject.mode back = StatObject.mode so
         /\ StatObject.inode back = StatObject.inode so
         /\ StatObject.gid back = StatObject.gid so
         /\ StatObject.uid back = StatObject.uid so
         /\ StatObject.mtime back = StatObject.mtime so
         /\ StatObject.ctime back = StatObject.ctime so
         /\ StatObject.size back = StatObject.size so.
Proof.
  intros so. do 2 eexists. split; [vm_compute; reflexivity |].
  eapply (record_bytes_round_trip so); [reflexivity | vm_compute; reflexivity].
Defined.

Lemma serialize_memoized_witness :
  let so := hd StatObject.blank (Demo.record_of "/x/a" 0) in
  exists b so',
    StatObject.serialize so = Ok (b, so')
    /\ StatObject.serialize so' = Ok (b, so')
    /\ StatObject._serialized so' = Some b.
Proof.
  intros so.
  exists (fst (match StatObject.serialize so with Ok p => p | Err _ => ([], so) end)),
         (snd (match StatObject.serialize so with Ok p => p | Err _ => ([], so) end)).
  assert (H : StatObject.serialize so
              = Ok (fst (match StatObject.serialize so with Ok p => p | Err _ => ([], so) end),
                    snd (match StatObject.serialize so with Ok p => p | Err _ => ([], so) end)))
    by (vm_compute; reflexivity).
  destruct (serialize_memoized so _ _ H) as (A & B & _).
  split; [exact H | split; [exact A | exact B]].
Defined.

Lemma delta_with_itself_witness :
  let so := hd StatObject.blank (Demo.record_of "/x/a" 0) in
  exists so',
    StatObject.delta (so, Some so) = Done (repeat Byte.x00 40) (so', Some so').
Proof.
  intros so.
  exists (snd (match StatObject.serialize so with Ok p => p | Err _ => ([], so) end)).
  assert (H : StatObject.serialize so
              = Ok (fst (match StatObject.serialize so with Ok p => p | Err _ => ([], so) end),
                    snd (match StatObject.serialize so with Ok p => p | Err _ => ([], so) end)))
    by (vm_compute; reflexivity).
  exact (delta_with_itself so _ _ H).
Defined.

Lemma delta_recovers_witness :
  let a := hd StatObject.blank (Demo.record_of "/x/a" 0) in
  let b := hd StatObject.blank (Demo.record_of "/x/b/c" 1) in
  exists d st ba a' bb b',
    StatObject.delta (a, Some b) = Done d st
    /\ StatObject.serialize a = Ok (ba, a')
    /\ StatObject.serialize b = Ok (bb, b')
    /\ st = (a', Some b')
    /\ List.length d = 40%nat
    /\ Struct.xor_bytes d bb = ba
    /\ Struct.xor_bytes d ba = bb.
Proof.
  intros a b.
  destruct (delta_recovers a b
              (Struct.xor_bytes
                 (fst (match StatObject.serialize a with Ok p => p | Err _ => ([], a) end))
                 (fst (match StatObject.serialize b with Ok p => p | Err _ => ([], b) end)))
              (snd (match StatObject.serialize a with Ok p => p | Err _ => ([], a) end),
               Some (snd (match StatObject.serialize b with Ok p => p | Err _ => ([], b) end)))
              eq_refl eq_refl eq_refl)
    as (ba & a' & bb & b' & H).
  do 2 eexists. exists ba, a', bb, b'. split; [reflexivity | exact H].
Defined.

Lemma oversize_file_skipped_witness :
  let s := Demo.walking true false (PyInt.ArgStr "15") [] [] in
  _init_from_paths Demo.os "/x" 3 None ["b/c"; "a"] s
  = _init_from_paths Demo.os "/x" 3 None ["a"] (emit (SkipTooLarge "/x/b/c" 20) s).
Proof.
  intros s.
  refine (proj1 (oversize_file_skipped Demo.os "/x" 2 None "b/c" ["a"] s (Some 15)
                   (Demo.entry Demo.reg_mode 1 20) _ _ _ _ _));
    reflexivity.
Defined.

Lemma directory_walk_composes_witness :
  let s := Demo.walking true false PyInt.ArgNone [] [] in
  let s1 := Demo.walking true false PyInt.ArgNone [("b", 0)] (Demo.record_of "/x/b" 0) in
  _init_from_paths Demo.os "/x" 3 None ["b"; "a"] s
  = match _init_from_paths Demo.os "/x" 2 (Some "b") ["c"] s1 with
    | Done _ s2 => _init_from_paths Demo.os "/x" 3 None ["a"] s2
    | Raised e s2 =>
        if is_FileNotFoundError e then Raised AssertionError s2
        else if is_PermissionError e then
          _init_from_paths Demo.os "/x" 3 None ["a"] (emit (SkipPermission "/x/b") s2)
        else Raised e s2
    | OutOfFuel => OutOfFuel
    end.
Proof.
  intros s s1.
  refine (directory_walk_composes Demo.os "/x" 2 None "b" ["a"] s None
            (Demo.entry Demo.dir_mode 1 4096) s1 ["c"] _ _ _ _ _ _ _ _);
    reflexivity.
Defined.

Lemma unlistable_directory_witness :
  let s := Demo.walking true false PyInt.ArgNone [] [] in
  let s1 := Demo.walking true false PyInt.ArgNone [("p", 0)] (Demo.record_of "/x/p" 0) in
  _init_from_paths Demo.os "/x" 3 None ["p"; "a"] s
  = _init_from_paths Demo.os "/x" 3 None ["a"] (emit (SkipPermission "/x/p") s1).
Proof.
  intros s s1.
  refine (unlistable_directory Demo.os "/x" 2 None "p" ["a"] s None
            (Demo.entry Demo.dir_mode 1 4096) s1 PermissionError _ _ _ _ _ _ _ _ _);
    reflexivity.
Defined.

Lemma walk_without_follow_witness :
  let s := Demo.walking false false PyInt.ArgNone [] [] in
  let os' := {| getcwd := getcwd Demo.os; resolve := resolve Demo.os;
                lstat := lstat Demo.os;
                listdir := fun _ => Ok ["elsewhere"];
                path_exists := path_exists Demo.os;
                read_text := read_text Demo.os |} in
  _init_from_paths Demo.os "/x" 7 None ["b"; "a"] s <> OutOfFuel
  /\ _init_from_paths Demo.os "/x" 7 None ["b"; "a"] s
     = _init_from_paths os' "/x" 1 None ["b"; "a"] s.
Proof.
  intros s os'.
  apply (walk_without_follow Demo.os "/x" os' 6 None ["b"; "a"] s);
    [reflexivity | reflexivity | intros p; reflexivity].
Defined.

Lemma walk_only_appends_witness :
  let s := Demo.walking true false PyInt.ArgNone [("a", 0)] (Demo.record_of "/x/a" 0) in
  exists s',
    _init_from_paths Demo.os "/x" 3 None ["b"] s = Done tt s'
    /\ names s' = [("a", 0); ("b", 1); ("b/c", 2)]
    /\ (forall k v, Dict.get k (names s) = Some v -> Dict.get k (names s') = Some v)
    /\ follow (self s') = follow (self s).
Proof.
  intros s. eexists. split; [vm_compute; reflexivity |]. split; [reflexivity |].
  pose proof (walk_only_appends Demo.os "/x" 3 None ["b"] s _ eq_refl)
    as (_ & Hkeep & _ & _ & Hf & _).
  split; [exact Hkeep | exact Hf].
Defined.

Lemma no_bailout_no_file_not_found_witness :
  let s := Demo.walking true false PyInt.ArgNone [] [] in
  _init_from_paths Demo.os "/x" 3 None ["gone"; "d"] s <> Raised FileNotFoundError s.
Proof.
  intros s.
  apply (no_bailout_no_file_not_found Demo.os "/x" 3 None ["gone"; "d"] s s).
  reflexivity.
Defined.


Lemma export_fs_record_region_witness :
  let s := Demo.walking true false PyInt.ArgNone [("a", 0); ("b", 1)]
             (Demo.record_of "/x/a" 0 ++ Demo.record_of "/x/b" 1) in
  exists written s' body recs,
    export_fs Demo.os s = Done written s'
    /\ written = (Py.encode_utf8 (Py.str_of_int 2 ++ Py.NL) ++ body ++ recs)%list
    /\ List.length recs = 80%nat
    /\ names s' = names s.
Proof.
  intros s.
  assert (H : export_fs Demo.os s
              = Done (match export_fs Demo.os s with Done w _ => w | _ => [] end)
                     (match export_fs Demo.os s with
                      | Done _ s' => s' | Raised _ s' => s' | OutOfFuel => s
                      end))
    by (vm_compute; reflexivity).
  assert (Hfresh : Forall (fun so => StatObject._serialized so = None) (stat_objects s))
    by (repeat constructor).
  destruct (export_fs_record_region Demo.os s _ _ Hfresh H)
    as (body & recs & Hw & _ & Hl & _ & Hn & _).
  do 2 eexists. exists body, recs.
  split; [exact H | split; [exact Hw | split; [exact Hl | exact Hn]]].
Defined.

Lemma export_names_assertion_witness :
  (let s := Demo.walking true false PyInt.ArgNone [(Py.NL, 0)] [] in
   export_names [Py.NL] s = Raised AssertionError s)
  /\ (let d := [("a", 0); ("b" ++ Py.NL ++ "c", 1)] in
      let s := Demo.walking true false PyInt.ArgNone d [] in
      export_names (Dict.keys d) s
      = Done (Py.encode_utf8 ("a" ++ Py.NL ++ "0" ++ Py.NL
                              ++ "b" ++ Py.NL ++ "c" ++ Py.NL ++ "1" ++ Py.NL)) s
      /\ Dict.mem Py.NL d = false
      /\ Py.encode_utf8 ("a" ++ Py.NL ++ "0" ++ Py.NL
                         ++ "b" ++ Py.NL ++ "c" ++ Py.NL ++ "1" ++ Py.NL)
         = flat_map (fun kv => Py.encode_utf8 (name_lines kv)) d).
Proof.
  split.
  - intros s. refine (proj1 (export_names_assertion s _) _ _).
    + repeat constructor. intros [].
    + reflexivity.
    + discriminate.
  - intros d s.
    assert (H : export_names (Dict.keys d) s
                = Done (Py.encode_utf8 ("a" ++ Py.NL ++ "0" ++ Py.NL
                                        ++ "b" ++ Py.NL ++ "c" ++ Py.NL ++ "1" ++ Py.NL)) s)
      by reflexivity.
    split; [exact H |].
    assert (Hnd : NoDup (Dict.keys (names s)))
      by (repeat constructor; cbn; intuition discriminate).
    destruct (proj2 (export_names_assertion s Hnd) _ _ H) as (Hnl & _ & Hbody).
    split; [exact Hnl | exact Hbody].
Defined.

Lemma names_section_round_trip_witness :
  let d := [("a", 0); ("b/c", 1)] in
  let s0 := Demo.walking true false PyInt.ArgNone d [] in
  let s := Demo.walking true false PyInt.ArgNone [] [] in
  export_names (Dict.keys d) s0 = Done (Py.encode_utf8 (names_text d)) s0
  /\ Py.ascii_text (Py.encode_utf8 (names_text d)) = Some (names_text d)
  /\ import_names 2 (names_text d ++ "REST") s = Done "REST" (set_names d s).
Proof.
  intros d s0 s.
  apply (names_section_round_trip d "REST" s0 s).
  - repeat constructor; cbn; intuition discriminate.
  - intros k [<- | [<- | []]]; repeat split; reflexivity.
  - intros kv [<- | [<- | []]]; reflexivity.
  - reflexivity.
  - reflexivity.
Defined.

Lemma import_fs_on_exported_layout_witness :
  let d := [("a", 0); ("b/c", 1)] in
  let text := Py.str_of_int 2 ++ Py.NL ++ names_text d ++ "RECORDS" in
  let s := first_instance (Demo.fs false false PyInt.ArgNone) in
  import_fs (Demo.with_file "snap" text) s
  = Raised TypeError (set_names d (set_inode 2 s)).
Proof.
  intros d text s.
  apply (import_fs_on_exported_layout (Demo.with_file "snap" text) s d "RECORDS").
  - repeat constructor; cbn; intuition discriminate.
  - intros k [<- | [<- | []]]; repeat split; reflexivity.
  - intros kv [<- | [<- | []]]; reflexivity.
  - reflexivity.
  - reflexivity.
  - reflexivity.
Defined.

Lemma add_idempotent_witness :
  let self := {| Paths.base := "/x"; Paths.relative_only := true |} in
  Paths.add Demo.os self "/x/a" ["a"] = Done tt ["a"]
  /\ (forall x, In x [] -> In x ["a"]).
Proof.
  intros self.
  destruct (add_idempotent Demo.os self "/x/a" [] ["a"] eq_refl) as (H1 & H2 & _).
  split; [exact H1 | exact H2].
Defined.

Lemma add_under_base_witness :
  let self := {| Paths.base := "/x"; Paths.relative_only := true |} in
  Paths.add Demo.os self " /x " [] = Done tt ["."]
  /\ Paths.add Demo.os self "/x/b/c" ["."] = Done tt ["."; "b/c"].
Proof.
  intros self. split.
  - refine (proj1 (add_under_base Demo.os self " /x " [] "" _) _); reflexivity.
  - refine (proj2 (add_under_base Demo.os self "/x/b/c" ["."] "b/c" _) _ _);
      [reflexivity | discriminate | reflexivity].
Defined.

Lemma Paths_init_keeps_earlier_paths_witness :
  Paths.__init__ Demo.os (Some "/x") true (Some ["/x/a"; "/elsewhere"; "/x/b"]) []
  = Raised (ValueError (NotUnder "/elsewhere" "/x")) ["a"].
Proof.
  refine (Paths_init_keeps_earlier_paths Demo.os (Some "/x") true ["/x/a"] "/elsewhere"
            ["/x/b"] [] ["a"] _ "/x" _ _ _); reflexivity.
Defined.

(** X26. [import_fs] returns normally only for a count line that is
    not positive, a negative count included; it has then loaded no name
    and no record, and the one thing it changed is the counter, which
    is now that count. *)
Theorem import_fs_returns_only_for_empty os s s' :
  import_fs os s = Done tt s' ->
  exists text n,
    read_text os (name (self s)) = Ok text
    /\ PyInt.of_str (fst (Py.readline text)) = Ok n
    /\ n <= 0
    /\ s' = set_inode n s.
Proof.
  intros H. unfold import_fs, bind, gets, lift, modify in H. cbn in H.
  destruct (read_text os (name (self s))) as [text | e]; cbn in H; [| discriminate].
  destruct (Py.readline text) as [l rest] eqn:Er.
  destruct (PyInt.of_str l) as [n | e] eqn:Eo; cbn in H; [| discriminate].
  revert H. destruct (Z.to_nat n) as [| k] eqn:En.
  - cbn. intros [= <-]. exists text, n. rewrite Er. cbn [fst].
    split; [reflexivity | split; [exact Eo | split; [lia | reflexivity]]].
  - destruct (import_names (S k) rest (set_inode n s)) as [sos s1 | e s1 |];
      [| discriminate | discriminate].
    cbn. discriminate.
Qed.

Lemma import_fs_returns_only_for_empty_witness :
  let s := first_instance (Demo.fs false false PyInt.ArgNone) in
  let text := "-3" ++ Py.NL ++ "a" ++ Py.NL ++ "0" ++ Py.NL in
  import_fs (Demo.with_file "snap" text) s = Done tt (set_inode (-3) s)
  /\ exists text' n,
       read_text (Demo.with_file "snap" text) (name (self s)) = Ok text'
       /\ PyInt.of_str (fst (Py.readline text')) = Ok n
       /\ n <= 0
       /\ set_inode (-3) s = set_inode n s.
Proof.
  intros s text.
  assert (H : import_fs (Demo.with_file "snap" text) s = Done tt (set_inode (-3) s))
    by reflexivity.
  split; [exact H |].
  exact (import_fs_returns_only_for_empty (Demo.with_file "snap" text) s _ H).
Defined.
